(** * sirbot-pyslackers: the Slack message endpoints

    A shallow embedding of [endpoints/slack/messages.py] and the proofs of
    the properties its specification states about it.

    Modelling conventions.
    - Python [str] is [string]; texts are restricted to the ASCII range.
    - The incoming message is a Python mapping: [gmap string string]. It is a
      shared mutable object handed to every handler, so it lives in the
      [World] the handlers run on.
    - The collaborators (Slack Web API, IEX quote client, PostgreSQL, the
      outbound HTTP session) are reached through the [App] record; every call
      is recorded in the world's trace.
    - [async def] bodies are programs of the monad [M]: state passing with
      exceptions, the state surviving a raise. *)

From Stdlib Require Import Ascii QArith.
From stdpp Require Import gmap strings list.

Local Open Scope Z_scope.

(** ** Python string primitives *)

Module Py.

Definition chars (s : string) : list ascii := String.list_ascii_of_string s.
Definition str (l : list ascii) : string := String.string_of_list_ascii l.

Definition code (c : ascii) : N := N_of_ascii c.

Definition in_range (lo hi c : ascii) : bool :=
  ((code lo <=? code c) && (code c <=? code hi))%N.

Definition is_upper (c : ascii) : bool := in_range "A" "Z" c.
Definition is_lower (c : ascii) : bool := in_range "a" "z" c.
Definition is_digit (c : ascii) : bool := in_range "0" "9" c.

(** [str.isspace] on the ASCII range: TAB..CR, FS..US and the space. *)
Definition is_space (c : ascii) : bool :=
  ((9 <=? code c) && (code c <=? 13) || (28 <=? code c) && (code c <=? 32))%N.

(** The characters [\w] stands for. *)
Definition is_word (c : ascii) : bool :=
  is_upper c || is_lower c || is_digit c || bool_decide (c = "_"%char).

Definition lower (c : ascii) : ascii :=
  if is_upper c then ascii_of_N (code c + 32) else c.

Definition upper (c : ascii) : ascii :=
  if is_lower c then ascii_of_N (code c - 32) else c.

(** [s.startswith(p)] on character lists. *)
Fixpoint starts_with (p s : list ascii) : bool :=
  match p, s with
  | [], _ => true
  | a :: p', b :: s' => bool_decide (a = b) && starts_with p' s'
  | _ :: _, [] => false
  end.

(** [s.find(p)]: index of the first occurrence, [-1] when there is none. *)
Fixpoint find_from (p s : list ascii) (i : Z) : Z :=
  if starts_with p s then i
  else match s with
       | [] => -1
       | _ :: s' => find_from p s' (i + 1)
       end.

Definition find (s p : string) : Z := find_from (chars p) (chars s) 0.

(** [s.count(p)] for a non-empty [p]: non-overlapping occurrences, scanned
    from the left. [skip] characters of a found occurrence are still to be
    passed over. *)
Fixpoint count_go (p s : list ascii) (skip : nat) : nat :=
  match s with
  | [] => 0
  | _ :: s' =>
      match skip with
      | S k => count_go p s' k
      | O => if starts_with p s
             then S (count_go p s' (length p - 1))
             else count_go p s' 0
      end
  end.

Definition count (s p : string) : nat := count_go (chars p) (chars s) 0.

(** [p in s]. *)
Definition contains (s p : string) : bool := 0 <=? find s p.

(** [s[n:]] for an integer [n]; a negative [n] counts from the end. *)
Definition slice_from (s : string) (n : Z) : string :=
  let l := chars s in
  let len := Z.of_nat (length l) in
  let start := if n <? 0 then Z.max 0 (len + n) else n in
  str (drop (Z.to_nat start) l).

(** [s.split()]: the maximal runs of non-blank characters. *)
Fixpoint split_go (cur : list ascii) (s : list ascii) : list string :=
  match s with
  | [] => match cur with [] => [] | _ => [str (rev cur)] end
  | c :: s' =>
      if is_space c
      then match cur with
           | [] => split_go [] s'
           | _ => str (rev cur) :: split_go [] s'
           end
      else split_go (c :: cur) s'
  end.

Definition split (s : string) : list string := split_go [] (chars s).

(** The first piece of [s] split at its dots: the text before the first
    dot. Splitting at a separator never returns an empty list. *)
Fixpoint before_dot (s : list ascii) : list ascii :=
  match s with
  | [] => []
  | c :: s' => if bool_decide (c = "."%char) then [] else c :: before_dot s'
  end.

Definition split_dot_head (s : string) : string := str (before_dot (chars s)).

Definition len (s : string) : Z := Z.of_nat (String.length s).

(** [int(s)] in base ten: blanks around, an optional sign, then digits, where
    single underscores may separate digits. [None] is [ValueError]. *)
Definition digit_val (c : ascii) : Z := Z.of_N (code c - 48).

(** The blanks [int] skips around the number of an ASCII string: TAB..CR
    and the space. FS..US, blanks for [str.split], are not among them:
    [int] of FS followed by a digit is a [ValueError]. *)
Definition is_blank (c : ascii) : bool :=
  ((9 <=? code c) && (code c <=? 13) || (code c =? 32))%N.

Fixpoint strip_left (s : list ascii) : list ascii :=
  match s with
  | c :: s' => if is_blank c then strip_left s' else s
  | [] => []
  end.

Definition strip (s : list ascii) : list ascii :=
  rev (strip_left (rev (strip_left s))).

(** [digits acc after_digit s]: [after_digit] tells that the previous
    character was a digit, the only place an underscore or the end may
    follow. *)
Fixpoint digits (acc : Z) (after_digit : bool) (s : list ascii) : option Z :=
  match s with
  | [] => if after_digit then Some acc else None
  | c :: s' =>
      if is_digit c then digits (10 * acc + digit_val c) true s'
      else if bool_decide (c = "_"%char) && after_digit then
        match s' with
        | d :: _ => if is_digit d then digits acc false s' else None
        | [] => None
        end
      else None
  end.

Definition int (s : string) : option Z :=
  match strip (chars s) with
  | "-"%char :: ds => Z.opp <$> digits 0 false ds
  | "+"%char :: ds => digits 0 false ds
  | ds => digits 0 false ds
  end.

End Py.

(** ** Regular expressions

    The fragment of Python's [re] the module uses: literals, [.], character
    classes, [^], [\b], concatenation, ordered alternation, greedy bounded
    and unbounded repetition, and capturing groups. Matching is the
    backtracking search of [re]: alternatives left to right, repetitions
    longest first. *)

Module Re.

Inductive regex : Type :=
| Eps
| Lit (c : ascii)
| Dot
| Class (ranges : list (ascii * ascii))
| Bol
| WordB
| Cat (r1 r2 : regex)
| Alt (r1 r2 : regex)
| Repeat (lo : nat) (hi : option nat) (r : regex)
| Group (name : string) (r : regex).

(** Where the matcher stands: the character before it and the text left. *)
Record cursor : Type := Cursor { prev : option ascii; rest : list ascii }.

Definition captures : Type := list (string * string).

Definition advance (a : ascii) (s : list ascii) : cursor :=
  {| prev := Some a; rest := s |}.

Definition same_char (ci : bool) (c a : ascii) : bool :=
  if ci then bool_decide (Py.lower c = Py.lower a) else bool_decide (c = a).

Definition in_class (ci : bool) (ranges : list (ascii * ascii)) (a : ascii) : bool :=
  let hit (x : ascii) := existsb (fun r => Py.in_range r.1 r.2 x) ranges in
  if ci then hit a || hit (Py.lower a) || hit (Py.upper a) else hit a.

Definition wordish (o : option ascii) : bool :=
  match o with Some c => Py.is_word c | None => false end.

Definition at_boundary (cu : cursor) : bool :=
  negb (eqb (wordish (prev cu)) (wordish (head (rest cu)))).

Definition below (count : nat) (hi : option nat) : bool :=
  match hi with Some h => (count <? h)%nat | None => true end.

(** The iterations of a repetition of [step] between [lo] and [hi] times,
    longest first, [count] of them done. Beyond its minimum a repetition
    starts no iteration where the previous one started (an iteration that
    consumed nothing is not repeated), so [lo] plus the length of the
    remaining text, plus one, bounds the number of iterations: the [fuel]. *)
Fixpoint iterate
    (step : cursor -> captures -> (cursor -> captures -> option captures)
            -> option captures)
    (lo : nat) (hi : option nat) (k : cursor -> captures -> option captures)
    (fuel count : nat) (last : option nat) (cu : cursor) (gs : captures)
    {struct fuel} : option captures :=
  let stop := if (lo <=? count)%nat then k cu gs else None in
  let here := length (rest cu) in
  match fuel with
  | O => stop
  | S fuel' =>
      if (count <? lo)%nat
         || below count hi && negb (bool_decide (last = Some here))
      then
        match step cu gs (iterate step lo hi k fuel' (S count) (Some here)) with
        | Some res => Some res
        | None => stop
        end
      else stop
  end.

(** [run ci r cu gs k]: match [r] at [cu], then hand over to [k]; [None]
    makes the caller try its next choice. *)
Fixpoint run (ci : bool) (r : regex) (cu : cursor) (gs : captures)
    (k : cursor -> captures -> option captures) {struct r} : option captures :=
  match r with
  | Eps => k cu gs
  | Lit c =>
      match rest cu with
      | a :: s => if same_char ci c a then k (advance a s) gs else None
      | [] => None
      end
  | Dot =>
      match rest cu with
      | a :: s => if bool_decide (a = "010"%char) then None else k (advance a s) gs
      | [] => None
      end
  | Class ranges =>
      match rest cu with
      | a :: s => if in_class ci ranges a then k (advance a s) gs else None
      | [] => None
      end
  | Bol => match prev cu with None => k cu gs | Some _ => None end
  | WordB => if at_boundary cu then k cu gs else None
  | Cat r1 r2 => run ci r1 cu gs (fun cu' gs' => run ci r2 cu' gs' k)
  | Alt r1 r2 =>
      match run ci r1 cu gs k with
      | Some res => Some res
      | None => run ci r2 cu gs k
      end
  | Repeat lo hi r1 =>
      iterate (run ci r1) lo hi k (lo + length (rest cu) + 2)%nat O None cu gs
  | Group name r1 =>
      run ci r1 cu gs (fun cu' gs' =>
        let taken := take (length (rest cu) - length (rest cu')) (rest cu) in
        k cu' ((name, Py.str taken) :: gs'))
  end.

Definition accept : cursor -> captures -> option captures := fun _ gs => Some gs.

(** [pattern.match(text)]: anchored at the start of the text. *)
Definition match_ (ci : bool) (r : regex) (text : string) : option captures :=
  run ci r {| prev := None; rest := Py.chars text |} [] accept.

(** [pattern.search(text)]: the match at the leftmost position that has one. *)
Fixpoint search_at (ci : bool) (r : regex) (before : option ascii)
    (s : list ascii) {struct s} : option captures :=
  match run ci r {| prev := before; rest := s |} [] accept with
  | Some gs => Some gs
  | None =>
      match s with
      | a :: s' => search_at ci r (Some a) s'
      | [] => None
      end
  end.

Definition search (ci : bool) (r : regex) (text : string) : option captures :=
  search_at ci r None (Py.chars text).

(** [match.group(name)]; a group that took no part in the match is [None]. *)
Fixpoint group (name : string) (gs : captures) : option string :=
  match gs with
  | [] => None
  | (n, v) :: gs' => if bool_decide (n = name) then Some v else group name gs'
  end.

(** Building patterns. *)
Fixpoint lits (s : list ascii) : regex :=
  match s with
  | [] => Eps
  | [c] => Lit c
  | c :: s' => Cat (Lit c) (lits s')
  end.
Definition text (s : string) : regex := lits (Py.chars s).
Definition star (r : regex) : regex := Repeat 0 None r.
Definition opt (r : regex) : regex := Repeat 0 (Some 1%nat) r.
Fixpoint seq (rs : list regex) : regex :=
  match rs with
  | [] => Eps
  | [r] => r
  | r :: rs' => Cat r (seq rs')
  end.

End Re.

(** ** The module-level patterns *)

Definition upper_or_dot : Re.regex := Re.Class [("A", "Z"); (".", ".")]%char.

(** [STOCK_REGEX], line 16: a dollar sign, a word boundary, the group
    [symbol] of one to five characters among [A-Z] and the dot, a word
    boundary. *)
Definition STOCK_REGEX : Re.regex :=
  Re.seq [Re.Lit "$"; Re.WordB;
          Re.Group "symbol" (Re.Repeat 1 (Some 5%nat) upper_or_dot);
          Re.WordB].

(** [TELL_REGEX], line 17: the word tell and a space; group 1, in angle
    brackets: group 2 (a hash or an at sign), the group [to_id] (any number
    of [A-Z0-9]) and the optional group 4 (nothing, or any text); a space;
    the group [msg] (any text). *)
Definition TELL_REGEX : Re.regex :=
  Re.seq [Re.text "tell ";
          Re.Group "1" (Re.seq [Re.Lit "<";
                                Re.Group "2" (Re.Alt (Re.Lit "#") (Re.Lit "@"));
                                Re.Group "to_id"
                                  (Re.star (Re.Class [("A", "Z"); ("0", "9")]%char));
                                Re.opt (Re.Group "4" (Re.Alt Re.Eps (Re.star Re.Dot)));
                                Re.Lit ">"]);
          Re.Lit " ";
          Re.Group "msg" (Re.star Re.Dot)].

(** The pattern [inspect] searches for, line 363: any text between the
    two characters that open a mention and the next closing angle bracket
    that lets the match succeed. *)
Definition INSPECT_REGEX : Re.regex :=
  Re.seq [Re.text "<@"; Re.Group "1" (Re.star Re.Dot); Re.Lit ">"].

(** ** Values exchanged with the collaborators *)

#[local] Set Warnings "-register-all".

(** Python values that leave the handlers. Text whose rendering depends on
    float formatting, [pprint], [json] or [datetime] is kept as the list of
    its pieces rather than rendered. *)
Inductive value : Type :=
| VNone
| VBool (b : bool)
| VNum (x : Q)
| VStr (s : string)
| VFormat (pieces : list piece)
| VList (items : list value)
| VDict (entries : list (string * value))
with piece : Type :=
| PStr (s : string)
| PFloat4 (x : Q)          (* the format [,.4f] *)
| PGrouped (x : Q)         (* the format [,] *)
| PPformat (v : value)     (* [pprint.pformat] *)
| PJson (v : value)        (* [json.dumps] *)
| PIsoformat (t : Z).      (* [datetime.isoformat] *)

(** An incoming event, [slack.events.Message]: string-valued fields. *)
Abbreviation Message := (gmap string string).

(** A response draft, also a [slack.events.Message]. *)
Abbreviation Response := (gmap string value).

(** How an f-string renders an optional string. *)
Definition fstr (o : option string) : string := default "None" o.

(** A quote of the IEX API: the symbol, and entries the API may leave null. *)
Record Quote : Type := {
  symbol : string;
  companyName : option string;
  latestPrice : option Q;
  change : option Q;
  changePercent : option Q;
  latestVolume : option Q;
  open : option Q;
  close : option Q;
  low : option Q;
  high : option Q;
  latestTime : option string;
  latestUpdate : option Q
}.

Inductive exn : Type :=
| KeyError (key : string)
| IndexError
| ValueError
| TypeError
| AttributeError
| UnboundLocalError (name : string)
| ClientResponseError (status : Z)
| SlackAPIError (error : string)
| UniqueViolationError.

Global Instance exn_eq_dec : EqDecision exn.
Proof. solve_decision. Defined.

(** The methods of [slack.methods] the handlers query. *)
Inductive methods : Type := CHAT_POST_MESSAGE | REACTIONS_ADD | USERS_INFO.

Global Instance methods_eq_dec : EqDecision methods.
Proof. solve_decision. Defined.

Inductive level : Type := DEBUG | ERROR.

Global Instance level_eq_dec : EqDecision level.
Proof. solve_decision. Defined.

(** A row of [slack.messages], in the order of the INSERT of
    [save_in_database]: id, text, user, channel, raw, time. *)
Record MessageRow : Type := {
  row_id : string;
  row_text : option string;
  row_user : option string;
  row_channel : option string;
  row_raw : Message;
  row_time : Z
}.

(** A row of [slack.users]. *)
Record UserRow : Type := { user_raw : list (string * value); join_date : Z }.

(** What the handlers do to the outside, in the order they do it. The
    arguments interpolated into a log line are not kept. *)
Inductive event : Type :=
| Log (lvl : level) (msg : string)
| SlackQuery (url : methods) (data : Response)
| StocksCrypto
| StocksBook (sym : string)
| StocksLogo (sym : string)
| PgInsertMessage (row : MessageRow)
| PgSelectChannel (id : string)
| PgSelectUser (id : string)
| HttpRequest (method url : string).

(** ** The application and the world *)

(** [app]: the bot's identity and its collaborators. A collaborator answers
    a request with a value or raises. [ADMIN_CHANNEL] and
    [HELP_FIELD_DESCRIPTIONS] are the constants imported from [.utils]. *)
Record App : Type := {
  bot_user_id : string;
  admins : list string;
  pg_loaded : bool;
  slack_api : methods -> Response -> exn + value;
  stocks_crypto : Z + list Quote;
  stocks_book : string -> Z + Quote;
  stocks_logo : string -> Z + string;
  http_status : string -> exn + Z;
  ADMIN_CHANNEL : string;
  HELP_FIELD_DESCRIPTIONS : value
}.

(** One row of [slack.channels]: the topic kept in its raw metadata. *)
Record ChannelRow : Type := { raw_topic_value : string }.

Record World : Type := {
  message : Message;
  messages_table : list MessageRow;
  channels_table : gmap string ChannelRow;
  users_table : gmap string UserRow;
  trace : list event
}.

(** ** Handler programs *)

(** A program over a state [S]: it ends with a value or with a raised
    exception, and the state reached is kept in both cases. *)
Definition M (S A : Type) : Type := S -> S * (exn + A).

Definition ret {S A} (a : A) : M S A := fun s => (s, inr a).

Definition raise {S A} (e : exn) : M S A := fun s => (s, inl e).

Definition bind {S A B} (c : M S A) (f : A -> M S B) : M S B :=
  fun s =>
    match c s with
    | (s', inl e) => (s', inl e)
    | (s', inr a) => f a s'
    end.

Notation "x <- c1 ;; c2" := (bind c1 (fun x => c2))
  (at level 100, c1 at next level, right associativity, only parsing).
Notation "c1 ;; c2" := (bind c1 (fun _ => c2))
  (at level 100, right associativity, only parsing).

(** [try: c except ...]: [handler e] is the body of the clause that catches
    [e], [None] when no clause does. *)
Definition try_except {S A} (c : M S A) (handler : exn -> option (M S A)) : M S A :=
  fun s =>
    match c s with
    | (s', inr a) => (s', inr a)
    | (s', inl e) =>
        match handler e with
        | Some h => h s'
        | None => (s', inl e)
        end
    end.

Definition of_result {S A} (r : exn + A) : M S A :=
  match r with inl e => raise e | inr a => ret a end.

Definition emit (ev : event) : M World unit :=
  fun w =>
    ({| message := message w; messages_table := messages_table w;
        channels_table := channels_table w; users_table := users_table w;
        trace := trace w ++ [ev] |}, inr tt).

Definition LOG (lvl : level) (msg : string) : M World unit := emit (Log lvl msg).

(** *** The incoming message *)

(** [message[key]] *)
Definition message_getitem (key : string) : M World string :=
  fun w =>
    match message w !! key with
    | Some v => (w, inr v)
    | None => (w, inl (KeyError key))
    end.

(** [message.get(key)] *)
Definition message_get (key : string) : M World (option string) :=
  fun w => (w, inr (message w !! key)).

(** [message[key] = v] *)
Definition message_setitem (key v : string) : M World unit :=
  fun w =>
    ({| message := <[key := v]> (message w); messages_table := messages_table w;
        channels_table := channels_table w; users_table := users_table w;
        trace := trace w |}, inr tt).

(** [dict(message)] *)
Definition message_dict : M World Message := fun w => (w, inr (message w)).

(** Modelled from the spec: [message.response()] of the chat library, which
    is not part of this module. The draft is a new mapping on the channel
    and the thread of the message; its text and attachments are to be
    filled. The channel is read by subscription. *)
Definition message_response : M World Response :=
  channel <- message_getitem "channel" ;;
  thread <- message_get "thread_ts" ;;
  ret (match thread with
       | Some t => <["thread_ts" := VStr t]> {["channel" := VStr channel]}
       | None => {["channel" := VStr channel]}
       end).

(** *** The collaborators *)

(** [await app.plugins.slack.api.query(url=..., data=...)] *)
Definition api_query (app : App) (url : methods) (data : Response) : M World value :=
  emit (SlackQuery url data) ;;
  of_result (slack_api app url data).

(** Modelled from the spec: the quote client (the stocks plugin) answers, or
    fails with a client response error that carries the HTTP status. *)
Definition of_http {A} (r : Z + A) : M World A :=
  match r with inl status => raise (ClientResponseError status) | inr a => ret a end.

Definition crypto (app : App) : M World (list Quote) :=
  emit StocksCrypto ;; of_http (stocks_crypto app).

Definition book (app : App) (sym : string) : M World Quote :=
  emit (StocksBook sym) ;; of_http (stocks_book app sym).

Definition logo (app : App) (sym : string) : M World string :=
  emit (StocksLogo sym) ;; of_http (stocks_logo app sym).

(** [app.plugins.pg]: a [KeyError] when the plugin is not loaded. *)
Definition pg_plugin (app : App) : M World unit :=
  if pg_loaded app then ret tt else raise (KeyError "pg").

(** The row is stored under the identifier [id]. *)
Definition has_id (id : string) (row : MessageRow) : bool :=
  bool_decide (row_id row = id).

(** Modelled from the spec: the INSERT into the messages table, whose schema
    is not part of this module. The table is keyed by the message
    identifier: a row whose identifier is stored already is refused with a
    uniqueness violation, any other row is added. *)
Definition pg_insert_message (row : MessageRow) : M World unit :=
  emit (PgInsertMessage row) ;;
  fun w =>
    if existsb (has_id (row_id row)) (messages_table w)
    then (w, inl UniqueViolationError)
    else ({| message := message w;
             messages_table := messages_table w ++ [row];
             channels_table := channels_table w; users_table := users_table w;
             trace := trace w |}, inr tt).

Definition pg_select_channel (id : string) : M World (option ChannelRow) :=
  emit (PgSelectChannel id) ;;
  fun w => (w, inr (channels_table w !! id)).

Definition pg_select_user (id : string) : M World (option UserRow) :=
  emit (PgSelectUser id) ;;
  fun w => (w, inr (users_table w !! id)).

(** [await app.http_session.request(GET, url)], then its [status]. *)
Definition http_request (app : App) (url : string) : M World Z :=
  emit (HttpRequest "GET" url) ;;
  of_result (http_status app url).

(** *** Local variables

    A handler whose [except] clause falls through to code that reads a local
    assigned inside the [try] keeps its locals [L] next to the world, so that
    the code after the [try] sees them as the raise left them. *)

Inductive local (A : Type) : Type :=
| Unbound
| Bound (a : A).
Arguments Unbound {A}.
Arguments Bound {A} a.

Definition lift {L A} (c : M World A) : M (World * L) A :=
  fun s => match c s.1 with (w', r) => ((w', s.2), r) end.

Definition locals {L} : M (World * L) L := fun s => (s, inr s.2).

Definition set_locals {L} (l : L) : M (World * L) unit := fun s => ((s.1, l), inr tt).

Definition with_locals {L A} (init : L) (c : M (World * L) A) : M World A :=
  fun w => match c (w, init) with (s', r) => (s'.1, r) end.

(** Reading a local by its name. *)
Definition load {S A} (name : string) (v : local A) : M S A :=
  match v with
  | Bound a => ret a
  | Unbound => raise (UnboundLocalError name)
  end.

(** ** The quote attachments *)

Definition quot : string := String (ascii_of_nat 34) "".
Definition newline : string := String (ascii_of_nat 10) "".

(** [quote.get(key, 0)] once the null entries are removed. *)
Definition get0 (o : option Q) : Q := default 0%Q o.

Definition str_value (o : option string) : value :=
  match o with Some s => VStr s | None => VNone end.

(** [color]: gray, good when the change is positive, danger when negative. *)
Definition color_of (change : Q) : string :=
  if 0 <? Qnum change then "good"
  else if Qnum change <? 0 then "danger"
  else "gray".

Definition money (x : Q) : value := VFormat [PStr "$"; PFloat4 x].

Definition short_field (title : string) (v : value) : value :=
  VDict [("title", VStr title); ("value", v); ("short", VBool true)].

Definition change_field (quote : Quote) : value :=
  short_field "Change"
    (VFormat [PStr "$"; PFloat4 (get0 (change quote)); PStr " (";
              PFloat4 (Qmult (get0 (changePercent quote)) (inject_Z 100));
              PStr "%)"]).

Definition volume_field (quote : Quote) : value :=
  short_field "Volume" (VFormat [PGrouped (get0 (latestVolume quote))]).

Definition footer : string :=
  "Data provided for free by <https://iextrading.com/developer|IEX>. View "
  +:+ "<https://iextrading.com/api-exhibit-a/|IEX's Terms of Use>.".

Definition title_of (quote : Quote) (name : string) (price : Q) : value :=
  VFormat [PStr (symbol quote +:+ " (" +:+ name +:+ "): $"); PFloat4 price].

Definition title_link (sym : option string) : value :=
  VStr ("https://finance.yahoo.com/quote/" +:+ fstr sym).

Definition quote_ts (quote : Quote) : value :=
  VNum (Qdiv (get0 (latestUpdate quote)) (inject_Z 1000)).

(** The attachment of [crypto_quote], lines 62-112. Subscripting the
    company name or the latest price of a quote that has none raises. *)
Definition crypto_attachment (sym : option string) (quote : Quote) : exn + value :=
  match companyName quote, latestPrice quote with
  | None, _ => inl (KeyError "companyName")
  | Some _, None => inl (KeyError "latestPrice")
  | Some name, Some price =>
      inr (VDict
        [("color", VStr (color_of (get0 (change quote))));
         ("title", title_of quote name price);
         ("title_link", title_link sym);
         ("fields", VList
            [change_field quote;
             volume_field quote;
             short_field "Low" (money (get0 (low quote)));
             short_field "High" (money (get0 (high quote)));
             short_field "Latest time of quote"
               (VStr (default "N/A" (latestTime quote) +:+ " EST"))]);
         ("footer", VStr footer);
         ("footer_icon", VStr "https://iextrading.com/apple-touch-icon.png");
         ("ts", quote_ts quote)])
  end.

(** The attachment of [stock_quote], lines 140-196. *)
Definition stock_attachment (sym : option string) (quote : Quote) (logo_url : string)
    : exn + value :=
  match companyName quote, latestPrice quote with
  | None, _ => inl (KeyError "companyName")
  | Some _, None => inl (KeyError "latestPrice")
  | Some name, Some price =>
      inr (VDict
        [("color", VStr (color_of (get0 (change quote))));
         ("thumb_url", VStr logo_url);
         ("title", title_of quote name price);
         ("title_link", title_link sym);
         ("fields", VList
            [change_field quote;
             volume_field quote;
             short_field "Open" (money (get0 (open quote)));
             short_field "Close" (money (get0 (close quote)));
             short_field "Low" (money (get0 (low quote)));
             short_field "High" (money (get0 (high quote)))]);
         ("footer", VStr footer);
         ("footer_icon", VStr "https://iextrading.com/apple-touch-icon.png");
         ("ts", quote_ts quote)])
  end.

(** ** The handlers *)

(** The loop of lines 49-53: [quote] is the first listed pair with the
    wanted symbol, [None] when the loop ends without a [break]. *)
Fixpoint first_listed (wanted : string) (listed : list Quote) : option Quote :=
  match listed with
  | [] => None
  | c :: listed' =>
      if bool_decide (symbol c = wanted) then Some c else first_listed wanted listed'
  end.

(** The locals of [crypto_quote] that outlive its [try]. *)
Record crypto_locals : Type := {
  quote : local (option Quote);
  response : Response
}.

Definition assign_quote (q : option Quote) : M (World * crypto_locals) unit :=
  l <- locals ;; set_locals {| quote := Bound q; response := response l |}.

Definition assign_response (r : Response) : M (World * crypto_locals) unit :=
  l <- locals ;; set_locals {| quote := quote l; response := r |}.

Definition load_quote : M (World * crypto_locals) (option Quote) :=
  l <- locals ;; load "quote" (quote l).

Definition crypto_not_found (sym : option string) : string :=
  "The crypto symbol `" +:+ fstr sym +:+ "` could not be found".

Definition crypto_quote (app : App) : M World unit :=
  text <- message_get "text" ;;
  match Re.search false STOCK_REGEX (default "" text) with
  | None => ret tt
  | Some match_ =>
      let sym := Re.group "symbol" match_ in
      LOG DEBUG "Fetching crypto quotes for symbol %s" ;;
      response0 <- message_response ;;
      with_locals {| quote := Unbound; response := response0 |}
        (try_except
           (listed <- lift (crypto app) ;;
            assign_quote None ;;
            match first_listed (fstr sym +:+ "USDT") listed with
            | Some c => assign_quote (Some c)
            | None => ret tt
            end ;;
            found <- load_quote ;;
            match found with
            | None =>
                l <- locals ;;
                assign_response (<["text" := VStr (crypto_not_found sym)]> (response l)) ;;
                lift (LOG DEBUG "No crypto currencies found when searching for: %s")
            | Some _ => ret tt
            end ;;
            lift (LOG DEBUG "Crypto quote from IEX API: %s"))
           (fun e =>
              match e with
              | ClientResponseError _ =>
                  Some (lift (LOG ERROR "Error retrieving crypto quotes: %s"))
              | _ => None
              end) ;;
         found <- load_quote ;;
         match found with
         | Some q =>
             attachment <- of_result (crypto_attachment sym q) ;;
             l <- locals ;;
             assign_response (<["attachments" := VList [attachment]]> (response l))
         | None => ret tt
         end ;;
         l <- locals ;;
         lift (api_query app CHAT_POST_MESSAGE (response l)) ;;
         ret tt)
  end.

(** [try: c except ...: ... else: ...]: the [else] block runs after a [try]
    block that did not raise, outside the reach of the clauses. *)
Definition try_except_else {S A B} (c : M S A) (handler : exn -> option (M S B))
    (orelse : A -> M S B) : M S B :=
  fun s =>
    match c s with
    | (s', inr a) => orelse a s'
    | (s', inl e) =>
        match handler e with
        | Some h => h s'
        | None => (s', inl e)
        end
    end.

Definition stock_not_found (sym : option string) : string :=
  "The symbol `" +:+ fstr sym +:+ "` could not be found.".

Definition stock_quote (app : App) : M World unit :=
  text <- message_get "text" ;;
  match Re.search false STOCK_REGEX (default "" text) with
  | None => ret tt
  | Some match_ =>
      let sym := Re.group "symbol" match_ in
      LOG DEBUG "Fetching stock quotes for symbol %s" ;;
      response0 <- message_response ;;
      response1 <-
        try_except_else
          (quote <- book app (fstr sym) ;;
           logo_url <- logo app (fstr sym) ;;
           LOG DEBUG "Quote from IEX API: %s" ;;
           ret (quote, logo_url))
          (fun e =>
             match e with
             | ClientResponseError status =>
                 Some (if status =? 404
                       then ret (<["text" := VStr (stock_not_found sym)]> response0)
                       else
                         LOG ERROR "Error retrieving stock quotes: %s" ;;
                         ret (<["text" := VStr "Unable to retrieve quotes right now."]>
                                response0))
             | _ => None
             end)
          (fun found =>
             attachment <- of_result (stock_attachment sym found.1 found.2) ;;
             ret (<["attachments" := VList [attachment]]> response0)) ;;
      api_query app CHAT_POST_MESSAGE response1 ;;
      ret tt
  end.

Definition hello (app : App) : M World unit :=
  response0 <- message_response ;;
  user <- message_getitem "user" ;;
  api_query app CHAT_POST_MESSAGE
    (<["text" := VStr ("Hello <@" +:+ user +:+ ">")]> response0) ;;
  ret tt.

Definition help_message (app : App) : M World unit :=
  response0 <- message_response ;;
  api_query app CHAT_POST_MESSAGE
    (<["attachments" :=
         VList [VDict [("color", VStr "good");
                       ("fields", HELP_FIELD_DESCRIPTIONS app)]]]>
       (<["text" := VStr "Sir Bot-a-lot help"]> response0)) ;;
  ret tt.

(** [to_id.startswith(("C", "U"))] *)
Definition starts_with_C_or_U (to_id : string) : bool :=
  Py.starts_with (Py.chars "C") (Py.chars to_id)
  || Py.starts_with (Py.chars "U") (Py.chars to_id).

Definition tell (app : App) : M World unit :=
  text <- message_getitem "text" ;;
  let match_ := Re.match_ false TELL_REGEX text in
  response0 <- message_response ;;
  response1 <-
    match match_ with
    | Some gs =>
        let msg := Re.group "msg" gs in
        match Re.group "to_id" gs with
        | None => raise AttributeError
        | Some to_id =>
            if starts_with_C_or_U to_id
            then ret (<["channel" := VStr to_id]> (<["text" := str_value msg]> response0))
            else ret (<["text" := VStr "Sorry I can not understand the destination."]>
                        response0)
        end
    | None => ret (<["text" := VStr "Sorry I can not understand"]> response0)
    end ;;
  api_query app CHAT_POST_MESSAGE response1 ;;
  ret tt.

Definition reaction (channel ts : string) : Response :=
  <["timestamp" := VStr ts]> (<["channel" := VStr channel]> {["name" := VStr "sirbot"]}).

Definition mention (app : App) : M World unit :=
  try_except
    (user <- message_getitem "user" ;;
     if bool_decide (user ≠ bot_user_id app) then
       channel <- message_getitem "channel" ;;
       ts <- message_getitem "ts" ;;
       api_query app REACTIONS_ADD (reaction channel ts) ;;
       ret tt
     else ret tt)
    (fun e =>
       match e with
       | SlackAPIError error =>
           Some (if bool_decide (error ≠ "already_reacted") then raise e else ret tt)
       | _ => None
       end).

(** [datetime.datetime.fromtimestamp]: the instant is kept as its POSIX
    seconds. The years 1 to 9999 (taken in UTC) are the range of
    [datetime]; outside it the conversion raises. *)
Definition fromtimestamp (seconds : Z) : exn + Z :=
  if (-62135596800 <=? seconds) && (seconds <=? 253402300799)
  then inr seconds
  else inl ValueError.

(** [int(ts.split(dot)[0])] *)
Definition ts_seconds (ts : string) : exn + Z :=
  match Py.int (Py.split_dot_head ts) with
  | Some n => inr n
  | None => inl ValueError
  end.

Definition saving_message : string :=
  "Saving message " +:+ quot +:+ "%s" +:+ quot +:+ " to database.".

Definition already_in_database : string :=
  "Message " +:+ quot +:+ "%s" +:+ quot +:+ " already in database.".

Definition save_in_database (app : App) : M World unit :=
  if pg_loaded app then
    message_getitem "ts" ;;
    LOG DEBUG saving_message ;;
    ts <- message_getitem "ts" ;;
    if bool_decide (ts ≠ "") then
      try_except
        (pg_plugin app ;;
         id <- message_getitem "ts" ;;
         text <- message_get "text" ;;
         user <- message_get "user" ;;
         channel <- message_get "channel" ;;
         raw <- message_dict ;;
         ts' <- message_getitem "ts" ;;
         seconds <- of_result (ts_seconds ts') ;;
         time <- of_result (fromtimestamp seconds) ;;
         pg_insert_message
           {| row_id := id; row_text := text; row_user := user;
              row_channel := channel; row_raw := raw; row_time := time |})
        (fun e =>
           match e with
           | UniqueViolationError =>
               Some (message_getitem "ts" ;; LOG DEBUG already_in_database)
           | _ => None
           end)
    else ret tt
  else ret tt.

(** The buttons of lines 312-328. *)
Definition topic_actions (channel old_topic : string) : value :=
  VList
    [VDict [("name", VStr "validate"); ("text", VStr "Validate");
            ("style", VStr "primary"); ("type", VStr "button")];
     VDict [("name", VStr "revert"); ("text", VStr "Revert");
            ("style", VStr "danger");
            ("value", VFormat [PJson (VDict [("channel", VStr channel);
                                             ("old_topic", VStr old_topic)])]);
            ("type", VStr "button")]].

(** The attachment of lines 300-307. *)
Definition topic_notice (user channel old_topic new_topic : string)
    : list (string * value) :=
  [("fallback", VStr "Channel topic changed notice: old topic");
   ("title", VStr ("<@" +:+ user +:+ "> changed <#" +:+ channel +:+ "> topic."));
   ("fields", VList
      [VDict [("title", VStr "Previous topic"); ("value", VStr old_topic)];
       VDict [("title", VStr "New topic"); ("value", VStr new_topic)]])].

Definition channel_topic (app : App) : M World unit :=
  user <- message_getitem "user" ;;
  if bool_decide (user ∉ admins app) && bool_decide (user ≠ bot_user_id app) then
    pg_plugin app ;;
    channel_id <- message_getitem "channel" ;;
    channel <- pg_select_channel channel_id ;;
    LOG DEBUG "%s" ;;
    let old_topic :=
      match channel with
      | Some row => raw_topic_value row
      | None => "Original topic not found"
      end in
    let response0 : Response := {["channel" := VStr (ADMIN_CHANNEL app)]} in
    user' <- message_getitem "user" ;;
    channel' <- message_getitem "channel" ;;
    topic <- message_getitem "topic" ;;
    let notice := topic_notice user' channel' old_topic topic in
    attachment <-
      match channel with
      | Some _ =>
          channel'' <- message_getitem "channel" ;;
          ret (notice ++ [("callback_id", VStr "topic_change");
                          ("actions", topic_actions channel'' old_topic)])
      | None => ret notice
      end ;;
    api_query app CHAT_POST_MESSAGE
      (<["attachments" := VList [VDict attachment]]> response0) ;;
    ret tt
  else ret tt.

(** The body of the loop of [github_repo_link], run [n] more times. The
    text of the message is read again at each turn, and cut. *)
Fixpoint github_repo_loop (app : App) (n : nat) (response0 : Response)
    : M World unit :=
  match n with
  | O => ret tt
  | S n' =>
      text <- message_getitem "text" ;;
      let start := Py.find text "g#" + 2 in
      match Py.split (Py.slice_from text start) with
      | [] => raise IndexError
      | repo :: _ =>
          let len_to_remove := (start + Py.len repo) + 2 in
          message_setitem "text" (Py.slice_from text len_to_remove) ;;
          let repo' := if Py.contains repo "/" then repo else "pyslackers/" +:+ repo in
          let url := "https://github.com/" +:+ repo' in
          status <- http_request app url ;;
          response1 <-
            (if status =? 200 then
               api_query app CHAT_POST_MESSAGE (<["text" := VStr url]> response0) ;;
               ret (<["text" := VStr url]> response0)
             else ret response0) ;;
          github_repo_loop app n' response1
      end
  end.

Definition github_repo_link (app : App) : M World unit :=
  text <- message_get "text" ;;
  match text with
  | Some t =>
      if bool_decide (t ≠ "") then
        response0 <- message_response ;;
        github_repo_loop app (Py.count t "g#") response0
      else ret tt
  | None => ret tt
  end.

(** [d[key] = v] on a dictionary kept in insertion order. *)
Fixpoint dict_set (key : string) (v : value) (d : list (string * value))
    : list (string * value) :=
  match d with
  | [] => [(key, v)]
  | (k, x) :: d' =>
      if bool_decide (k = key) then (k, v) :: d' else (k, x) :: dict_set key v d'
  end.

Fixpoint dict_get (key : string) (d : list (string * value)) : option value :=
  match d with
  | [] => None
  | (k, x) :: d' => if bool_decide (k = key) then Some x else dict_get key d'
  end.

(** [data[key]] on a value received from a collaborator. *)
Definition value_getitem (data : value) (key : string) : exn + value :=
  match data with
  | VDict d =>
      match dict_get key d with
      | Some v => inr v
      | None => inl (KeyError key)
      end
  | _ => inl TypeError
  end.

Definition profile_text (user_id : option string) (user : value) : value :=
  VFormat [PStr ("<@" +:+ fstr user_id +:+ "> profile information " +:+ newline +:+ "```");
           PPformat user; PStr "```"].

Definition inspect (app : App) : M World unit :=
  channel <- message_getitem "channel" ;;
  text <- message_get "text" ;;
  if bool_decide (channel = ADMIN_CHANNEL app)
     && bool_decide (is_Some text) && bool_decide (text ≠ Some "") then
    response0 <- message_response ;;
    text' <- message_getitem "text" ;;
    response1 <-
      match Re.search false INSPECT_REGEX text' with
      | Some gs =>
          let user_id := Re.group "1" gs in
          pg_plugin app ;;
          data <- match user_id with
                  | Some id => pg_select_user id
                  | None => ret None
                  end ;;
          user <-
            match data with
            | Some row =>
                ret (VDict (dict_set "join_date"
                              (VFormat [PIsoformat (join_date row)]) (user_raw row)))
            | None =>
                reply <- api_query app USERS_INFO {["user" := str_value user_id]} ;;
                of_result (value_getitem reply "user")
            end ;;
          ret (<["text" := profile_text user_id user]> response0)
      | None =>
          ret (<["text" := VStr "Sorry I couldn't figure out which user to inspect"]>
                 response0)
      end ;;
    api_query app CHAT_POST_MESSAGE response1 ;;
    ret tt
  else ret tt.

(** ** Registration *)

(** The handlers of the module, by name. *)
Inductive endpoint : Type :=
| Hello | Tell | Mention | SaveInDatabase | ChannelTopic
| GithubRepoLink | Inspect | HelpMessage | StockQuote | CryptoQuote.

Global Instance endpoint_eq_dec : EqDecision endpoint.
Proof. solve_decision. Defined.

Definition body (e : endpoint) : App -> M World unit :=
  match e with
  | Hello => hello
  | Tell => tell
  | Mention => mention
  | SaveInDatabase => save_in_database
  | ChannelTopic => channel_topic
  | GithubRepoLink => github_repo_link
  | Inspect => inspect
  | HelpMessage => help_message
  | StockQuote => stock_quote
  | CryptoQuote => crypto_quote
  end.

(** What one call of [plugin.on_message] registers; the keyword arguments
    left out in a call have the defaults [flags=0], [mention=False],
    [admin=False], [subtype=None], [wait=True]. *)
Record Rule : Type := {
  rule_pattern : Re.regex;
  rule_handler : endpoint;
  rule_ignorecase : bool;
  rule_mention : bool;
  rule_admin : bool;
  rule_subtype : option string;
  rule_wait : bool
}.

Definition on_message (pattern : Re.regex) (handler : endpoint)
    (ignorecase mention admin : bool) (subtype : option string) (wait : bool)
    (plugin : list Rule) : list Rule :=
  plugin ++ [{| rule_pattern := pattern; rule_handler := handler;
                rule_ignorecase := ignorecase; rule_mention := mention;
                rule_admin := admin; rule_subtype := subtype;
                rule_wait := wait |}].

Definition any_text : Re.regex := Re.star Re.Dot.
Definition at_start (word : string) : Re.regex := Re.Cat Re.Bol (Re.text word).

(** The patterns of lines 33 and 34: the letter, a dollar sign, and one to
    five characters among [A-Z] and the dot. *)
Definition ticker (letter : ascii) : Re.regex :=
  Re.seq [Re.Lit letter; Re.Lit "$"; Re.Repeat 1 (Some 5%nat) upper_or_dot].

(** [create_endpoints], lines 20-34. The arguments of [on_message] after the
    pattern and the handler are, in this order: [flags=re.IGNORECASE],
    [mention], [admin], [subtype], [wait]. *)
Definition create_endpoints (plugin : list Rule) : list Rule :=
  (* "hello", hello, flags=re.IGNORECASE, mention=True *)
  let plugin := on_message (Re.text "hello") Hello true true false None true plugin in
  (* "^tell", tell, flags=re.IGNORECASE, mention=True, admin=True *)
  let plugin := on_message (at_start "tell") Tell true true true None true plugin in
  (* ".*", mention, flags=re.IGNORECASE, mention=True *)
  let plugin := on_message any_text Mention true true false None true plugin in
  (* ".*", save_in_database, wait=False *)
  let plugin :=
    on_message any_text SaveInDatabase false false false None false plugin in
  (* ".*", channel_topic, subtype="channel_topic" *)
  let plugin :=
    on_message any_text ChannelTopic false false false (Some "channel_topic") true
      plugin in
  (* "g#", github_repo_link *)
  let plugin :=
    on_message (Re.text "g#") GithubRepoLink false false false None true plugin in
  (* "^inspect", inspect, flags=re.IGNORECASE, mention=True, admin=True *)
  let plugin := on_message (at_start "inspect") Inspect true true true None true plugin in
  (* "^help", help_message, flags=re.IGNORECASE, mention=True *)
  let plugin :=
    on_message (at_start "help") HelpMessage true true false None true plugin in
  (* the ticker pattern with s, stock_quote, wait=False *)
  let plugin := on_message (ticker "s") StockQuote false false false None false plugin in
  (* the ticker pattern with c, crypto_quote, wait=False *)
  on_message (ticker "c") CryptoQuote false false false None false plugin.

(** ** Dispatch

    The router that evaluates the registered rules and calls the handlers
    belongs to the bot framework; it is modelled from the specification of
    the routing contract. *)

Module Dispatch.

(** Modelled from the spec: the pattern predicate of the router, which is
    not part of this module. The compiled pattern of the rule is searched
    against the text of the message; an absent or empty text is no match. *)
Definition pattern_matches (rule : Rule) (m : Message) : bool :=
  match m !! "text" with
  | None => false
  | Some t =>
      bool_decide (t ≠ "")
      && bool_decide (is_Some (Re.search (rule_ignorecase rule) (rule_pattern rule) t))
  end.

(** Modelled from the spec: the mention predicate of the router. A rule
    that requires a mention consumes the flag the transport computed. *)
Definition mention_ok (rule : Rule) (mentions_bot : bool) : bool :=
  implb (rule_mention rule) mentions_bot.

(** Modelled from the spec: the admin predicate of the router. A rule that
    requires an admin holds for the users among the admins of the bot. *)
Definition admin_ok (rule : Rule) (m : Message) (identity : App) : bool :=
  implb (rule_admin rule)
    (match m !! "user" with
     | Some u => bool_decide (u ∈ admins identity)
     | None => false
     end).

(** Modelled from the spec: the subtype predicate of the router. A rule
    with a subtype holds for the messages of that subtype, a rule without
    one for the messages of every subtype and of none. *)
Definition subtype_ok (rule : Rule) (m : Message) : bool :=
  match rule_subtype rule with
  | Some s => bool_decide (m !! "subtype" = Some s)
  | None => true
  end.

(** Modelled from the spec: the predicates of a rule are ANDed. *)
Definition matches (rule : Rule) (m : Message) (identity : App)
    (mentions_bot : bool) : bool :=
  pattern_matches rule m && mention_ok rule mentions_bot
  && admin_ok rule m identity && subtype_ok rule m.

(** Modelled from the spec: the failure boundary around one handler
    invocation. A failure inside the handler is logged and goes no
    further. *)
Definition isolated (c : M World unit) : M World unit :=
  try_except c (fun _ => Some (LOG ERROR "Exception in handler")).

(** Modelled from the spec: the matched handlers are invoked in the order
    of registration with the message and the application. The result
    lists the handlers invoked. A handler registered with [wait=False] is
    run where it is scheduled, which is one of its interleavings. *)
Fixpoint invoke (app : App) (matched : list Rule) : M World (list endpoint) :=
  match matched with
  | [] => ret []
  | rule :: matched' =>
      isolated (body (rule_handler rule) app) ;;
      invoked <- invoke app matched' ;;
      ret (rule_handler rule :: invoked)
  end.

(** Modelled from the spec: one dispatch pass. The predicates filter the
    rules against the message as it arrived, then the matched handlers
    run. *)
Definition dispatch (app : App) (rules : list Rule) (mentions_bot : bool)
    : M World (list endpoint) :=
  m <- message_dict ;;
  invoke app (List.filter (fun rule => matches rule m app mentions_bot) rules).

End Dispatch.

(** ** Running a handler *)

Definition run {A} (c : M World A) (w : World) : World * (exn + A) := c w.

(** The world after the program. *)
Definition after {A} (c : M World A) (w : World) : World := (c w).1.

(** How the program ended. *)
Definition outcome {A} (c : M World A) (w : World) : exn + A := (c w).2.

(** The events the program added to the trace of [w]. *)
Definition events {A} (c : M World A) (w : World) : list event :=
  drop (length (trace w)) (trace (after c w)).

Definition returns {A} (c : M World A) (w : World) : Prop :=
  exists a, outcome c w = inr a.

Definition raises {A} (c : M World A) (w : World) (e : exn) : Prop :=
  outcome c w = inl e.

(** The payloads posted with [chat.postMessage], in order. *)
Fixpoint posted (evs : list event) : list Response :=
  match evs with
  | [] => []
  | SlackQuery CHAT_POST_MESSAGE data :: evs' => data :: posted evs'
  | _ :: evs' => posted evs'
  end.

(** The calls made to a collaborator: everything but the log lines. *)
Definition is_call (ev : event) : bool :=
  match ev with
  | Log _ _ => false
  | _ => true
  end.

Definition calls (evs : list event) : list event := List.filter is_call evs.

(** The log lines at a level. *)
Fixpoint logged (lvl : level) (evs : list event) : list string :=
  match evs with
  | [] => []
  | Log l msg :: evs' =>
      if bool_decide (l = lvl) then msg :: logged lvl evs' else logged lvl evs'
  | _ :: evs' => logged lvl evs'
  end.

(** A world that has just received [m]. *)
Definition receive (m : Message) (w : World) : World :=
  {| message := m; messages_table := messages_table w;
     channels_table := channels_table w; users_table := users_table w;
     trace := trace w |}.

(** The rows stored under an identifier. *)
Definition stored (id : string) (w : World) : list MessageRow :=
  List.filter (has_id id) (messages_table w).

(** The status with which the quote client fails for a symbol in
    [stock_quote]: that of the book, else that of the logo; [None] when
    both answer. *)
Definition quote_failure (app : App) (sym : string) : option Z :=
  match stocks_book app sym with
  | inl status => Some status
  | inr _ =>
      match stocks_logo app sym with
      | inl status => Some status
      | inr _ => None
      end
  end.

(** The row the INSERT of lines 264-275 sends for the message [m] with the
    identifier [id], converted to [time]. *)
Definition row_of (m : Message) (id : string) (time : Z) : MessageRow :=
  {| row_id := id; row_text := m !! "text"; row_user := m !! "user";
     row_channel := m !! "channel"; row_raw := m; row_time := time |}.

(** [keeps view c]: the program [c] leaves what [view] shows of the state as
    it found it, however it ends. *)
Definition keeps {S V A : Type} (view : S -> V) (c : M S A) : Prop :=
  forall s, view (c s).1 = view s.

(** [passes step]: a matcher hands every result it gives over from its
    continuation. *)
Definition passes
    (step : Re.cursor -> Re.captures ->
            (Re.cursor -> Re.captures -> option Re.captures) ->
            option Re.captures) : Prop :=
  forall cu gs k res,
    step cu gs k = Some res -> exists cu' gs', k cu' gs' = Some res.

(** ** Sample inputs *)

Module Sample.

(** An application whose quote client fails: the listing with status 500,
    the book with status 404. *)
Definition app : App :=
  {| bot_user_id := "UBOT"; admins := ["UADMIN"]; pg_loaded := true;
     slack_api := fun _ _ => inr VNone;
     stocks_crypto := inl 500;
     stocks_book := fun _ => inl 404;
     stocks_logo := fun _ => inl 404;
     http_status := fun _ => inr 200;
     ADMIN_CHANNEL := "GADMIN";
     HELP_FIELD_DESCRIPTIONS := VList [] |}.

Definition btc : Quote :=
  {| symbol := "BTCUSDT"; companyName := Some "Bitcoin USD";
     latestPrice := Some (inject_Z 6500); change := Some (inject_Z 12);
     changePercent := None; latestVolume := None; open := None;
     close := None; low := None; high := None; latestTime := None;
     latestUpdate := None |}.

Definition eth : Quote :=
  {| symbol := "ETHUSDT"; companyName := Some "Ethereum USD";
     latestPrice := Some (inject_Z 450); change := None;
     changePercent := None; latestVolume := None; open := None;
     close := None; low := None; high := None; latestTime := None;
     latestUpdate := None |}.

(** The same application with a quote client that lists two pairs. *)
Definition listing_app : App :=
  {| bot_user_id := "UBOT"; admins := ["UADMIN"]; pg_loaded := true;
     slack_api := fun _ _ => inr VNone;
     stocks_crypto := inr [eth; btc];
     stocks_book := fun _ => inl 503;
     stocks_logo := fun _ => inl 404;
     http_status := fun _ => inr 200;
     ADMIN_CHANNEL := "GADMIN";
     HELP_FIELD_DESCRIPTIONS := VList [] |}.

(** The same application when the reaction is refused with [code]. *)
Definition refusing_app (code : string) : App :=
  {| bot_user_id := "UBOT"; admins := ["UADMIN"]; pg_loaded := true;
     slack_api := fun url _ =>
       match url with
       | REACTIONS_ADD => inl (SlackAPIError code)
       | _ => inr VNone
       end;
     stocks_crypto := inl 500;
     stocks_book := fun _ => inl 404;
     stocks_logo := fun _ => inl 404;
     http_status := fun _ => inr 200;
     ADMIN_CHANNEL := "GADMIN";
     HELP_FIELD_DESCRIPTIONS := VList [] |}.

(** A message of user [user] with text [text]. *)
Definition msg (user text : string) : Message :=
  <["ts" := "1530000000.000100"]>
    (<["channel" := "C1"]> (<["user" := user]> {["text" := text]})).

(** The same message without a text. *)
Definition textless : Message :=
  <["ts" := "1530000000.000100"]> (<["channel" := "C1"]> {["user" := "U1"]}).

(** A topic change of channel [C1] by user [U1]. *)
Definition topic_change : Message :=
  <["topic" := "Python, all day"]>
    (<["subtype" := "channel_topic"]> (msg "U1" "<@U1> set the channel topic")).

(** A world with empty tables that has just received [m]. *)
Definition world (m : Message) : World :=
  {| message := m; messages_table := []; channels_table := ∅;
     users_table := ∅; trace := [] |}.

(** The same world with channel [C1] on record. *)
Definition world_knowing_channel (m : Message) : World :=
  {| message := m; messages_table := [];
     channels_table := {["C1" := {| raw_topic_value := "Python" |}]};
     users_table := ∅; trace := [] |}.

End Sample.

(** ** Further vocabulary for the properties *)

(** How a handler that ends with a query of the chat API ends: as the
    query does, its answer dropped. *)
Definition discard {A} (r : exn + A) : exn + unit :=
  match r with
  | inl e => inl e
  | inr _ => inr tt
  end.

(** The three tables of the database. *)
Definition tables (w : World)
    : list MessageRow * gmap string ChannelRow * gmap string UserRow :=
  (messages_table w, channels_table w, users_table w).

(** The world [w] with [evs] added to its trace. *)
Definition logging (evs : list event) (w : World) : World :=
  {| message := message w; messages_table := messages_table w;
     channels_table := channels_table w; users_table := users_table w;
     trace := trace w ++ evs |}.

(** The draft [message.response()] returns for a message of [channel], in
    the thread [thread] if it has one. *)
Definition draft (channel : string) (thread : option string) : Response :=
  match thread with
  | Some t => <["thread_ts" := VStr t]> {["channel" := VStr channel]}
  | None => {["channel" := VStr channel]}
  end.

(** ** Further sample inputs *)

Module Fixture.

(** The sample application without the database plugin. *)
Definition app_without_pg : App :=
  {| bot_user_id := "UBOT"; admins := ["UADMIN"]; pg_loaded := false;
     slack_api := fun _ _ => inr VNone;
     stocks_crypto := inl 500;
     stocks_book := fun _ => inl 404;
     stocks_logo := fun _ => inl 404;
     http_status := fun _ => inr 200;
     ADMIN_CHANNEL := "GADMIN";
     HELP_FIELD_DESCRIPTIONS := VList [] |}.

Definition apple : Quote :=
  {| symbol := "AAPL"; companyName := Some "Apple Inc.";
     latestPrice := Some (inject_Z 190); change := Some (inject_Z (-2));
     changePercent := None; latestVolume := None; open := None;
     close := None; low := None; high := None; latestTime := None;
     latestUpdate := None |}.

(** A quote whose company name is null. *)
Definition nameless : Quote :=
  {| symbol := "AAPL"; companyName := None;
     latestPrice := Some (inject_Z 190); change := None;
     changePercent := None; latestVolume := None; open := None;
     close := None; low := None; high := None; latestTime := None;
     latestUpdate := None |}.

(** The sample application with a quote client that answers with [q], and
    an HTTP session that finds only the repository [pyslackers/sirbot]. *)
Definition quoting_app (q : Quote) : App :=
  {| bot_user_id := "UBOT"; admins := ["UADMIN"]; pg_loaded := true;
     slack_api := fun _ _ => inr VNone;
     stocks_crypto := inr [q];
     stocks_book := fun _ => inr q;
     stocks_logo := fun _ => inr "https://logo.example/aapl.png";
     http_status := fun url =>
       if bool_decide (url = "https://github.com/pyslackers/sirbot")
       then inr 200 else inr 404;
     ADMIN_CHANNEL := "GADMIN";
     HELP_FIELD_DESCRIPTIONS := VList [] |}.

(** A message of an admin in the admin channel. *)
Definition admin_msg (text : string) : Message :=
  <["channel" := "GADMIN"]> (Sample.msg "UADMIN" text).

(** A topic change of channel [C1] by [user]. *)
Definition topic_change_by (user : string) : Message :=
  <["topic" := "Python, all day"]>
    (<["subtype" := "channel_topic"]> (Sample.msg user "set the channel topic")).

(** A world that knows the user [U2]. *)
Definition world_knowing_user (m : Message) : World :=
  {| message := m; messages_table := []; channels_table := ∅;
     users_table :=
       {["U2" := {| user_raw := [("name", VStr "ada")]; join_date := 1500000000 |}]};
     trace := [] |}.

End Fixture.

(** [extends step]: a matcher hands every result it gives over from its
    continuation, with captures that extend the ones it was given. *)
Definition extends
    (step : Re.cursor -> Re.captures ->
            (Re.cursor -> Re.captures -> option Re.captures) ->
            option Re.captures) : Prop :=
  forall cu gs k res,
    step cu gs k = Some res ->
    exists cu' gs', gs `suffix_of` gs' /\ k cu' gs' = Some res.

(** The URLs requested over HTTP, in order. *)
Fixpoint requested (evs : list event) : list string :=
  match evs with
  | [] => []
  | HttpRequest _ url :: evs' => url :: requested evs'
  | _ :: evs' => requested evs'
  end.

(** The HTTP session answers the URL with status 200. *)
Definition found_200 (app : App) (url : string) : bool :=
  match http_status app url with
  | inr status => status =? 200
  | inl _ => false
  end.

(** A URL of a repository on GitHub: the site, then a path with a slash. *)
Definition repository_url (url : string) : Prop :=
  exists path, url = "https://github.com/" +:+ path /\ Py.contains path "/" = true.

(** The two kinds of call [github_repo_link] makes. *)
Definition request_or_post (ev : event) : Prop :=
  match ev with
  | HttpRequest method _ => method = "GET"
  | SlackQuery url _ => url = CHAT_POST_MESSAGE
  | _ => False
  end.

(** A ticker symbol as [STOCK_REGEX] reads one: one to five characters,
    each an upper-case letter or a dot. *)
Definition ticker_symbol (s : string) : Prop :=
  (1 <= String.length s <= 5)%nat
  /\ Forall (fun a => Py.is_upper a = true \/ a = "."%char) (Py.chars s).

(** The calls of the quote client for one symbol carry a ticker symbol. *)
Definition quotes_ticker (ev : event) : Prop :=
  match ev with
  | StocksBook s | StocksLogo s => ticker_symbol s
  | _ => True
  end.

(** [maintains P c]: the program [c] leaves a state in which [P] holds in
    a state in which [P] holds, however it ends. *)
Definition maintains {S A : Type} (P : S -> Prop) (c : M S A) : Prop :=
  forall s, P s -> P (c s).1.

(** The world [w] with another message and another trace. *)
Definition retold (m : Message) (evs : list event) (w : World) : World :=
  {| message := m; messages_table := messages_table w;
     channels_table := channels_table w; users_table := users_table w;
     trace := evs |}.

(** The world [w] with [row] added to the messages table. *)
Definition inserting (row : MessageRow) (w : World) : World :=
  {| message := message w; messages_table := messages_table w ++ [row];
     channels_table := channels_table w; users_table := users_table w;
     trace := trace w |}.

(** The key of the messages table: no two rows share an identifier. *)
Definition key_holds (w : World) : Prop := NoDup (map row_id (messages_table w)).

(** The payload goes to [channel]. *)
Definition sent_to (channel : string) (r : Response) : Prop :=
  r !! "channel" = Some (VStr channel).

(** ** Properties *)

(** *** The string and pattern primitives on sample texts *)

Example py_find_ex : Py.find "see g#sirbot" "g#" = 4.
Proof. reflexivity. Qed.
Example py_count_ex : Py.count "g#a g#b" "g#" = 2%nat.
Proof. reflexivity. Qed.
Example py_split_ex : Py.split "  sirbot  now " = ["sirbot"; "now"].
Proof. reflexivity. Qed.
Example py_int_ex : Py.int "1530000000" = Some 1530000000.
Proof. reflexivity. Qed.
Example py_int_blanks : Py.int (String (ascii_of_N 9) " 12 ") = Some 12.
Proof. reflexivity. Qed.
Example py_int_separator : Py.int (String (ascii_of_N 28) "1") = None.
Proof. reflexivity. Qed.
Example stock_regex_aapl :
  Re.search false STOCK_REGEX "s$AAPL" = Some [("symbol", "AAPL")].
Proof. reflexivity. Qed.
Example stock_regex_long :
  Re.search false STOCK_REGEX "s$ABCDEFG and $BRK.A!" = Some [("symbol", "BRK.A")].
Proof. reflexivity. Qed.
Example stock_regex_lower : Re.search false STOCK_REGEX "c$btc" = None.
Proof. reflexivity. Qed.
Example stock_regex_empty : Re.search false STOCK_REGEX "" = None.
Proof. reflexivity. Qed.
Example tell_regex_ex :
  Re.group "msg" <$> Re.match_ false TELL_REGEX "tell <#C123|general> hi all"
  = Some (Some "hi all").
Proof. reflexivity. Qed.
Example tell_regex_bracket :
  Re.group "msg" <$> Re.match_ false TELL_REGEX "tell <@U123> hi > all"
  = Some (Some "hi > all").
Proof. reflexivity. Qed.
Example stock_regex_backtracks :
  Re.search false STOCK_REGEX "$AB.C. x" = Some [("symbol", "AB.C")].
Proof. reflexivity. Qed.

(** *** The trace *)

Lemma events_app {A} (c : M World A) (w : World) (evs : list event) :
  trace (after c w) = trace w ++ evs -> events c w = evs.
Proof. intros H. unfold events. rewrite H. apply drop_app_length. Qed.

Lemma events_nil {A} (c : M World A) (w : World) :
  trace (after c w) = trace w -> events c w = [].
Proof. intros H. apply events_app. by rewrite app_nil_r. Qed.

(** *** Pattern matching *)

Lemma iterate_passes step lo hi k fuel count last cu gs res :
  passes step ->
  Re.iterate step lo hi k fuel count last cu gs = Some res ->
  exists cu' gs', k cu' gs' = Some res.
Proof.
  intros Hstep. revert count last cu gs.
  induction fuel as [|fuel IH]; intros count last cu gs; cbn.
  - destruct (lo <=? count)%nat; [eauto | done].
  - destruct (_ || _).
    + destruct (step cu gs _) as [res' |] eqn:Hbody.
      * intros [= ->]. apply Hstep in Hbody as (cu' & gs' & Hmore). eauto.
      * destruct (lo <=? count)%nat; [eauto | done].
    + destruct (lo <=? count)%nat; [eauto | done].
Qed.

Lemma run_passes ci r : passes (Re.run ci r).
Proof.
  induction r as [| c | | ranges | | | r1 IH1 r2 IH2 | r1 IH1 r2 IH2
                 | lo hi r1 IH1 | name r1 IH1];
    intros cu gs k res; cbn [Re.run].
  - eauto.
  - destruct (Re.rest cu) as [|a s]; [done |].
    destruct (Re.same_char _ _ _); [eauto | done].
  - destruct (Re.rest cu) as [|a s]; [done |].
    destruct (bool_decide _); [done | eauto].
  - destruct (Re.rest cu) as [|a s]; [done |].
    destruct (Re.in_class _ _ _); [eauto | done].
  - destruct (Re.prev cu); [done | eauto].
  - destruct (Re.at_boundary cu); [eauto | done].
  - intros Hrun. apply IH1 in Hrun as (cu' & gs' & Hrun). by apply IH2 in Hrun.
  - destruct (Re.run ci r1 cu gs k) eqn:Hfirst.
    + intros [= ->]. by apply IH1 in Hfirst.
    + apply IH2.
  - by apply iterate_passes.
  - intros Hrun. apply IH1 in Hrun as (cu' & gs' & Hrun). eauto.
Qed.

Lemma search_at_run ci r before s gs :
  Re.search_at ci r before s = Some gs ->
  exists cu, Re.run ci r cu [] Re.accept = Some gs.
Proof.
  revert before. induction s as [|a s IH]; intros before; cbn [Re.search_at].
  - destruct (Re.run _ _ _ _ _) eqn:Hrun; [intros [= ->]; eauto | done].
  - destruct (Re.run _ _ _ _ _) eqn:Hrun; [intros [= ->]; eauto | apply IH].
Qed.

(** Every match of [STOCK_REGEX] binds the group [symbol]. *)
Lemma stock_regex_binds_symbol (text : string) (gs : Re.captures) :
  Re.search false STOCK_REGEX text = Some gs ->
  exists S, Re.group "symbol" gs = Some S.
Proof.
  intros Hsearch. apply search_at_run in Hsearch as [cu Hrun].
  unfold STOCK_REGEX in Hrun. cbn [Re.seq Re.run] in Hrun.
  destruct (Re.rest cu) as [|a s]; [done |].
  destruct (Re.same_char false "$" a); [| done].
  destruct (Re.at_boundary (Re.advance a s)); [| done].
  apply iterate_passes in Hrun as (cu' & gs' & Hrun); [| apply run_passes].
  destruct (Re.at_boundary cu'); [| done].
  injection Hrun as <-. eexists. reflexivity.
Qed.

(** *** [mention] *)

Section MentionHandler.

Context (app : App) (w : World).

(** C10. When the user of the message is the bot itself, [mention] calls
    no collaborator, the reaction API included, and returns. *)
Theorem mention_skips_own_message :
  message w !! "user" = Some (bot_user_id app) ->
  events (mention app) w = [] /\ outcome (mention app) w = inr tt.
Proof.
  intros Huser. split.
  - apply events_nil.
    unfold after, mention, try_except, bind, message_getitem.
    rewrite Huser, bool_decide_false by (intros Hne; by apply Hne).
    reflexivity.
  - unfold outcome, mention, try_except, bind, message_getitem.
    rewrite Huser, bool_decide_false by (intros Hne; by apply Hne).
    reflexivity.
Qed.

(** How [mention] ends when the reaction call is made and refused. *)
Lemma mention_refused (user channel ts code : string) :
  message w !! "user" = Some user -> user ≠ bot_user_id app ->
  message w !! "channel" = Some channel -> message w !! "ts" = Some ts ->
  slack_api app REACTIONS_ADD (reaction channel ts) = inl (SlackAPIError code) ->
  outcome (mention app) w =
    if bool_decide (code = "already_reacted") then inr tt
    else inl (SlackAPIError code).
Proof.
  intros Huser Hother Hchannel Hts Hrefused.
  unfold outcome, mention, try_except, bind, message_getitem, api_query, bind,
    emit, of_result.
  rewrite Huser, bool_decide_true, Hchannel, Hts by done.
  cbn. rewrite Hrefused. cbn.
  repeat case_bool_decide; done.
Qed.

(** C9. When the add-reaction call of [mention] fails with a chat API
    error, the handler returns if and only if the error code is
    [already_reacted]; with any other code it raises that error again. *)
Theorem mention_absorbs_only_already_reacted (user channel ts code : string) :
  message w !! "user" = Some user -> user ≠ bot_user_id app ->
  message w !! "channel" = Some channel -> message w !! "ts" = Some ts ->
  slack_api app REACTIONS_ADD (reaction channel ts) = inl (SlackAPIError code) ->
  (returns (mention app) w <-> code = "already_reacted")
  /\ (code ≠ "already_reacted" -> raises (mention app) w (SlackAPIError code)).
Proof.
  intros Huser Hother Hchannel Hts Hrefused.
  pose proof (mention_refused _ _ _ _ Huser Hother Hchannel Hts Hrefused) as Hend.
  unfold returns, raises. rewrite Hend. case_bool_decide as Hcode.
  - split; [split; eauto | done].
  - split; [split; [intros [? ?]; discriminate | done] | done].
Qed.

End MentionHandler.

Lemma mention_skips_own_message_witness :
  message (Sample.world (Sample.msg "UBOT" "<@UBOT> hi")) !! "user"
    = Some (bot_user_id Sample.app)
  /\ events (mention Sample.app) (Sample.world (Sample.msg "UBOT" "<@UBOT> hi")) = []
  /\ outcome (mention Sample.app) (Sample.world (Sample.msg "UBOT" "<@UBOT> hi")) = inr tt.
Proof.
  split; [reflexivity |].
  apply (mention_skips_own_message Sample.app
           (Sample.world (Sample.msg "UBOT" "<@UBOT> hi"))).
  reflexivity.
Defined.

Lemma mention_absorbs_only_already_reacted_witness :
  (returns (mention (Sample.refusing_app "invalid_name"))
     (Sample.world (Sample.msg "U1" "<@UBOT> hi"))
   <-> "invalid_name" = "already_reacted")
  /\ ("invalid_name" ≠ "already_reacted" ->
      raises (mention (Sample.refusing_app "invalid_name"))
        (Sample.world (Sample.msg "U1" "<@UBOT> hi")) (SlackAPIError "invalid_name")).
Proof.
  apply (mention_absorbs_only_already_reacted (Sample.refusing_app "invalid_name")
           (Sample.world (Sample.msg "U1" "<@UBOT> hi"))
           "U1" "C1" "1530000000.000100" "invalid_name").
  - reflexivity.
  - vm_compute. discriminate.
  - reflexivity.
  - reflexivity.
  - reflexivity.
Defined.

(** *** Unfolding a handler run *)

#[local] Arguments Re.search : simpl never.
#[local] Arguments Re.match_ : simpl never.
#[local] Arguments Re.group : simpl never.
#[local] Arguments STOCK_REGEX : simpl never.

Ltac run_handler :=
  unfold returns, raises, outcome, events, after, run, with_locals, try_except,
    try_except_else, lift, message_response, message_getitem, message_get,
    message_dict, api_query, crypto, book, logo, of_http, of_result, LOG, emit,
    assign_quote, assign_response, load_quote, load, locals, set_locals,
    pg_plugin, pg_select_channel, pg_insert_message, bind, ret, raise.

Ltac trace_tail := rewrite <- ?app_assoc, drop_app_length; cbn.

(** *** [crypto_quote] and [stock_quote] *)

Lemma first_listed_none (wanted : string) (listed : list Quote) :
  Forall (fun c => symbol c ≠ wanted) listed -> first_listed wanted listed = None.
Proof.
  induction 1 as [|c listed Hc _ IH]; cbn; [done |].
  by rewrite bool_decide_false.
Qed.

Lemma first_listed_some (wanted : string) (before : list Quote) (q : Quote)
    (rest : list Quote) :
  Forall (fun c => symbol c ≠ wanted) before -> symbol q = wanted ->
  first_listed wanted (before ++ q :: rest) = Some q.
Proof.
  intros Hbefore Hq. induction Hbefore as [|c before Hc _ IH]; cbn.
  - by rewrite bool_decide_true.
  - by rewrite bool_decide_false.
Qed.

Section QuoteHandlers.

Context (app : App) (w : World).

(** Without a match of [STOCK_REGEX] both handlers return at once. *)
Lemma quote_handlers_no_match :
  Re.search false STOCK_REGEX (default "" (message w !! "text")) = None ->
  run (stock_quote app) w = (w, inr tt) /\ run (crypto_quote app) w = (w, inr tt).
Proof.
  intros Hnone. unfold stock_quote, crypto_quote. run_handler.
  by rewrite Hnone.
Qed.

Context (text channel : string) (gs : Re.captures).
Hypothesis Htext : message w !! "text" = Some text.
Hypothesis Hsearch : Re.search false STOCK_REGEX text = Some gs.
Hypothesis Hchannel : message w !! "channel" = Some channel.

(** A failing listing: the error is logged, and the read of [quote] on
    line 60 finds the name unbound. *)
Lemma crypto_quote_listing_error (status : Z) :
  stocks_crypto app = inl status ->
  outcome (crypto_quote app) w = inl (UnboundLocalError "quote")
  /\ events (crypto_quote app) w =
       [Log DEBUG "Fetching crypto quotes for symbol %s"; StocksCrypto;
        Log ERROR "Error retrieving crypto quotes: %s"].
Proof.
  intros Hlisting. unfold crypto_quote. run_handler. cbn.
  rewrite Htext. cbn. rewrite Hsearch. cbn. rewrite Hchannel. cbn.
  rewrite Hlisting. cbn. split; [done |]. by trace_tail.
Qed.

(** No listed pair has the wanted symbol. *)
Lemma crypto_quote_not_listed (listed : list Quote) :
  stocks_crypto app = inr listed ->
  first_listed (fstr (Re.group "symbol" gs) +:+ "USDT") listed = None ->
  exists r, posted (events (crypto_quote app) w) = [r]
    /\ r !! "text" = Some (VStr (crypto_not_found (Re.group "symbol" gs)))
    /\ r !! "attachments" = None.
Proof.
  intros Hlisting Hnone. unfold crypto_quote. run_handler. cbn.
  rewrite Htext. cbn. rewrite Hsearch. cbn. rewrite Hchannel. cbn.
  rewrite Hlisting. cbn. rewrite Hnone. cbn.
  destruct (message w !! "thread_ts"); cbn.
  all: destruct (slack_api _ _ _); cbn.
  all: trace_tail; eexists; split; [reflexivity |].
  all: by simplify_map_eq.
Qed.

(** A listed pair [q] is selected. *)
Lemma crypto_quote_listed (listed : list Quote) (q : Quote) :
  stocks_crypto app = inr listed ->
  first_listed (fstr (Re.group "symbol" gs) +:+ "USDT") listed = Some q ->
  match crypto_attachment (Re.group "symbol" gs) q with
  | inr a =>
      exists r, posted (events (crypto_quote app) w) = [r]
        /\ r !! "attachments" = Some (VList [a]) /\ r !! "text" = None
  | inl e =>
      raises (crypto_quote app) w e /\ posted (events (crypto_quote app) w) = []
  end.
Proof.
  intros Hlisting Hsome.
  destruct (crypto_attachment (Re.group "symbol" gs) q) as [e | a] eqn:Hbuild.
  all: unfold crypto_quote; run_handler; cbn.
  all: rewrite Htext; cbn; rewrite Hsearch; cbn; rewrite Hchannel; cbn.
  all: rewrite Hlisting; cbn; rewrite Hsome; cbn; rewrite Hbuild; cbn.
  - split; [done |]. by trace_tail.
  - destruct (message w !! "thread_ts"); cbn.
    all: destruct (slack_api _ _ _); cbn.
    all: trace_tail; eexists; split; [reflexivity |].
    all: by simplify_map_eq.
Qed.

End QuoteHandlers.

Section StockFailure.

Context (app : App) (w : World) (text channel : string) (gs : Re.captures).
Hypothesis Htext : message w !! "text" = Some text.
Hypothesis Hsearch : Re.search false STOCK_REGEX text = Some gs.
Hypothesis Hchannel : message w !! "channel" = Some channel.

(** The response of [stock_quote] when the quote client fails. *)
Lemma stock_quote_failure (status : Z) :
  quote_failure app (fstr (Re.group "symbol" gs)) = Some status ->
  exists r, posted (events (stock_quote app) w) = [r]
    /\ r !! "text" =
         Some (VStr (if status =? 404 then stock_not_found (Re.group "symbol" gs)
                     else "Unable to retrieve quotes right now.")).
Proof.
  unfold quote_failure. intros Hfail.
  unfold stock_quote. run_handler. cbn.
  rewrite Htext. cbn. rewrite Hsearch. cbn. rewrite Hchannel. cbn.
  destruct (stocks_book app _) as [s1 | q]; cbn.
  2: destruct (stocks_logo app _) as [s2 | url]; cbn; [| discriminate].
  all: injection Hfail as ->.
  all: destruct (status =? 404); cbn.
  all: destruct (message w !! "thread_ts"); cbn.
  all: destruct (slack_api _ _ _); cbn.
  all: trace_tail; eexists; split; [reflexivity |].
  all: by simplify_map_eq.
Qed.

End StockFailure.

(** C1. On the message [c$BTC], with a listing that fails with a client
    response error, [crypto_quote] logs the error and then raises
    [UnboundLocalError]: the failure is not turned into a response, and
    nothing is posted. *)
Theorem crypto_quote_listing_error_escapes :
  stocks_crypto Sample.app = inl 500
  /\ outcome (crypto_quote Sample.app) (Sample.world (Sample.msg "U1" "c$BTC"))
       = inl (UnboundLocalError "quote")
  /\ logged ERROR (events (crypto_quote Sample.app) (Sample.world (Sample.msg "U1" "c$BTC")))
       = ["Error retrieving crypto quotes: %s"]
  /\ posted (events (crypto_quote Sample.app) (Sample.world (Sample.msg "U1" "c$BTC"))) = [].
Proof.
  split; [reflexivity |].
  destruct (crypto_quote_listing_error Sample.app
              (Sample.world (Sample.msg "U1" "c$BTC")) "c$BTC" "C1"
              [("symbol", "BTC")] eq_refl eq_refl eq_refl 500 eq_refl) as [Hend Hevents].
  rewrite Hend, Hevents. by repeat split.
Qed.

(** C6. With the extracted symbol [S] and the pairs the listing returns,
    [crypto_quote] quotes the first listed pair whose symbol is exactly [S]
    followed by [USDT]: the response carries the attachment built from it
    (or the handler raises where the attachment cannot be built). When no
    listed pair has that symbol, the text of the response is the not-found
    sentence for [S]. *)
Theorem crypto_quote_exact_suffixed_match (app : App) (w : World)
    (text channel S : string) (gs : Re.captures) (listed : list Quote) :
  message w !! "text" = Some text ->
  Re.search false STOCK_REGEX text = Some gs ->
  Re.group "symbol" gs = Some S ->
  message w !! "channel" = Some channel ->
  stocks_crypto app = inr listed ->
  (forall (before : list Quote) (q : Quote) (rest : list Quote),
      listed = before ++ q :: rest ->
      Forall (fun c => symbol c ≠ S +:+ "USDT") before ->
      symbol q = S +:+ "USDT" ->
      match crypto_attachment (Some S) q with
      | inr a =>
          exists r, posted (events (crypto_quote app) w) = [r]
            /\ r !! "attachments" = Some (VList [a]) /\ r !! "text" = None
      | inl e =>
          raises (crypto_quote app) w e /\ posted (events (crypto_quote app) w) = []
      end)
  /\ (Forall (fun c => symbol c ≠ S +:+ "USDT") listed ->
      exists r, posted (events (crypto_quote app) w) = [r]
        /\ r !! "text"
             = Some (VStr ("The crypto symbol `" +:+ S +:+ "` could not be found"))
        /\ r !! "attachments" = None).
Proof.
  intros Htext Hsearch Hgroup Hchannel Hlisting. split.
  - intros before q rest -> Hbefore Hq.
    pose proof (crypto_quote_listed app w text channel gs Htext Hsearch Hchannel
                  (before ++ q :: rest) q Hlisting) as Hrun.
    rewrite Hgroup in Hrun. apply Hrun.
    by apply first_listed_some.
  - intros Hnone.
    pose proof (crypto_quote_not_listed app w text channel gs Htext Hsearch Hchannel
                  listed Hlisting) as Hrun.
    rewrite Hgroup in Hrun. apply Hrun.
    by apply first_listed_none.
Qed.

Lemma crypto_quote_exact_suffixed_match_witness :
  exists r,
    posted (events (crypto_quote Sample.listing_app)
              (Sample.world (Sample.msg "U1" "c$XRP"))) = [r]
    /\ r !! "text" = Some (VStr "The crypto symbol `XRP` could not be found")
    /\ r !! "attachments" = None.
Proof.
  apply (crypto_quote_exact_suffixed_match Sample.listing_app
           (Sample.world (Sample.msg "U1" "c$XRP")) "c$XRP" "C1" "XRP"
           [("symbol", "XRP")] [Sample.eth; Sample.btc]).
  - reflexivity.
  - reflexivity.
  - reflexivity.
  - reflexivity.
  - reflexivity.
  - repeat constructor; vm_compute; discriminate.
Defined.

(** The selection on the sample listing: [BTC] resolves against the listed
    [BTCUSDT], the second pair. *)
Example crypto_quote_selects_btc :
  exists r a,
    posted (events (crypto_quote Sample.listing_app)
              (Sample.world (Sample.msg "U1" "c$BTC"))) = [r]
    /\ crypto_attachment (Some "BTC") Sample.btc = inr a
    /\ r !! "attachments" = Some (VList [a]).
Proof.
  destruct (crypto_quote_exact_suffixed_match Sample.listing_app
              (Sample.world (Sample.msg "U1" "c$BTC")) "c$BTC" "C1" "BTC"
              [("symbol", "BTC")] [Sample.eth; Sample.btc]
              eq_refl eq_refl eq_refl eq_refl eq_refl) as [Hfound _].
  specialize (Hfound [Sample.eth] Sample.btc [] eq_refl).
  destruct (crypto_attachment (Some "BTC") Sample.btc) as [e | a] eqn:Hbuild;
    [discriminate |].
  destruct Hfound as (r & Hposted & Hatt & _).
  - repeat constructor. vm_compute. discriminate.
  - reflexivity.
  - exists r, a. by repeat split.
Qed.

(** *** Dispatch *)

Lemma isolated_returns (c : M World unit) (w : World) :
  exists w', Dispatch.isolated c w = (w', inr tt).
Proof.
  unfold Dispatch.isolated, try_except, LOG, emit.
  destruct (c w) as [w' [e | []]]; eauto.
Qed.

(** The handlers of all the [matched] rules are invoked, in order, however
    each of them ends. *)
Lemma invoke_outcome (app : App) (matched : list Rule) (w : World) :
  outcome (Dispatch.invoke app matched) w = inr (map rule_handler matched).
Proof.
  revert w. induction matched as [|rule matched IH]; intros w; [done |].
  unfold outcome in *. cbn [Dispatch.invoke]. unfold bind at 1.
  destruct (isolated_returns (body (rule_handler rule) app) w) as [w' ->].
  unfold bind, ret. specialize (IH w').
  destruct (Dispatch.invoke app matched w') as [w'' [e | invoked]]; cbn in *.
  - discriminate.
  - by injection IH as ->.
Qed.

Lemma dispatch_outcome (app : App) (rules : list Rule) (mentions : bool) (w : World) :
  outcome (Dispatch.dispatch app rules mentions) w
  = inr (map rule_handler
           (List.filter (fun rule => Dispatch.matches rule (message w) app mentions)
              rules)).
Proof.
  unfold Dispatch.dispatch, outcome, bind, message_dict.
  apply invoke_outcome.
Qed.


Lemma count_invoked (f : Rule -> bool) (h : endpoint) (rules : list Rule) :
  count_occ endpoint_eq_dec (map rule_handler (List.filter f rules)) h
  = length (List.filter (fun rule => bool_decide (rule_handler rule = h) && f rule) rules).
Proof.
  induction rules as [|rule rules IH]; [done |]. cbn.
  case_bool_decide as Hh; destruct (f rule) eqn:Hf; cbn; rewrite ?IH; try done.
  - by destruct (endpoint_eq_dec (rule_handler rule) h).
  - by destruct (endpoint_eq_dec (rule_handler rule) h).
Qed.




(** The scenario of the specification, run on the sample application. *)
Example hello_and_mention_fire :
  outcome (Dispatch.dispatch Sample.app (create_endpoints []) true)
    (Sample.world (Sample.msg "U1" "<@UBOT> hello"))
  = inr [Hello; Mention; SaveInDatabase].
Proof. reflexivity. Qed.

(** C5. A message whose text is missing or empty matches the pattern of no
    rule, so a dispatch pass invokes nothing and leaves the world as it was;
    evaluating the pattern predicate is a total computation. Given such a
    message, [stock_quote] and [crypto_quote] return without a call to a
    collaborator, a log line or a response. *)
Theorem no_text_no_pattern_rule (app : App) (w : World) :
  message w !! "text" = None \/ message w !! "text" = Some "" ->
  (forall rule, Dispatch.pattern_matches rule (message w) = false)
  /\ (forall rules mentions,
        run (Dispatch.dispatch app rules mentions) w = (w, inr []))
  /\ run (stock_quote app) w = (w, inr tt)
  /\ run (crypto_quote app) w = (w, inr tt).
Proof.
  intros Htext.
  assert (Hpattern : forall rule, Dispatch.pattern_matches rule (message w) = false).
  { intros rule. unfold Dispatch.pattern_matches.
    destruct Htext as [-> | ->]; [done |]. by rewrite bool_decide_false by auto. }
  split; [exact Hpattern |]. split.
  - intros rules mentions. unfold run, Dispatch.dispatch, bind, message_dict.
    replace (List.filter _ rules) with (@nil Rule); [done |].
    induction rules as [|rule rules IH]; [done |]. cbn.
    unfold Dispatch.matches at 1. by rewrite Hpattern.
  - apply quote_handlers_no_match.
    by destruct Htext as [-> | ->].
Qed.

Lemma no_text_no_pattern_rule_witness :
  (message (Sample.world Sample.textless) !! "text" = None
   \/ message (Sample.world Sample.textless) !! "text" = Some "")
  /\ run (stock_quote Sample.app) (Sample.world Sample.textless)
     = (Sample.world Sample.textless, inr tt)
  /\ run (crypto_quote Sample.app) (Sample.world Sample.textless)
     = (Sample.world Sample.textless, inr tt).
Proof.
  split; [left; reflexivity |].
  apply (no_text_no_pattern_rule Sample.app (Sample.world Sample.textless)).
  left. reflexivity.
Defined.

(** C4. For a message whose text is [s$AAPL], a dispatch pass over the
    rules of [create_endpoints] invokes [stock_quote] once. When the quote
    client fails with status 404 for the symbol, the one response posted has
    the text saying that the symbol [AAPL] could not be found; when it fails
    with any other status, the text says that quotes cannot be retrieved
    right now. *)
Theorem stock_quote_aapl_scenario (app : App) (w : World) (channel : string)
    (mentions : bool) :
  message w !! "text" = Some "s$AAPL" ->
  message w !! "channel" = Some channel ->
  (exists invoked,
      outcome (Dispatch.dispatch app (create_endpoints []) mentions) w = inr invoked
      /\ count_occ endpoint_eq_dec invoked StockQuote = 1%nat)
  /\ (quote_failure app "AAPL" = Some 404 ->
      exists r, posted (events (stock_quote app) w) = [r]
        /\ r !! "text" = Some (VStr "The symbol `AAPL` could not be found."))
  /\ (forall status, status ≠ 404 -> quote_failure app "AAPL" = Some status ->
      exists r, posted (events (stock_quote app) w) = [r]
        /\ r !! "text" = Some (VStr "Unable to retrieve quotes right now.")).
Proof.
  intros Htext Hchannel.
  assert (Hsearch : Re.search false STOCK_REGEX "s$AAPL" = Some [("symbol", "AAPL")])
    by reflexivity.
  pose proof (stock_quote_failure app w "s$AAPL" channel _ Htext Hsearch Hchannel)
    as Hfailure.
  change (fstr (Re.group "symbol" [("symbol", "AAPL")])) with "AAPL" in Hfailure.
  split; [| split].
  - eexists. split; [apply dispatch_outcome |].
    rewrite count_invoked. cbn.
    unfold Dispatch.matches, Dispatch.pattern_matches. cbn. by rewrite Htext.
  - intros Hfail. apply (Hfailure 404 Hfail).
  - intros status Hother Hfail.
    destruct (Hfailure status Hfail) as (r & Hposted & Hr).
    exists r. split; [done |].
    by rewrite (proj2 (Z.eqb_neq status 404) Hother) in Hr.
Qed.

Lemma stock_quote_aapl_scenario_witness :
  exists r,
    posted (events (stock_quote Sample.app) (Sample.world (Sample.msg "U1" "s$AAPL")))
    = [r]
    /\ r !! "text" = Some (VStr "The symbol `AAPL` could not be found.").
Proof.
  apply (stock_quote_aapl_scenario Sample.app
           (Sample.world (Sample.msg "U1" "s$AAPL")) "C1" false).
  - reflexivity.
  - reflexivity.
  - reflexivity.
Defined.

(** The other failure, on the sample application whose book fails with
    status 503. *)
Example stock_quote_unavailable :
  (fun r => r !! "text") <$>
    posted (events (stock_quote Sample.listing_app)
              (Sample.world (Sample.msg "U1" "s$AAPL")))
  = [Some (VStr "Unable to retrieve quotes right now.")].
Proof. reflexivity. Qed.

(** *** [channel_topic] *)

(** C7. For a topic change by a user who is neither an admin nor the bot,
    [channel_topic] posts exactly one message. It goes to the admin channel,
    and its attachment shows the previous topic (the stored one, or the
    words Original topic not found when the channel has no record) and the
    new topic. The attachment carries actions if and only if the channel had
    a record in the channels table, and then they are the two buttons of
    lines 312-328: a primary button named validate and labelled Validate,
    and a danger button named revert and labelled Revert whose value is the
    JSON of the channel and the previous topic; the attachment then has the
    callback id topic_change, and none otherwise. *)
Theorem channel_topic_notifies_admins (app : App) (w : World)
    (user channel topic : string) :
  pg_loaded app = true ->
  message w !! "user" = Some user ->
  message w !! "channel" = Some channel ->
  message w !! "topic" = Some topic ->
  user ∉ admins app -> user ≠ bot_user_id app ->
  let record := channels_table w !! channel in
  let old_topic :=
    match record with
    | Some row => raw_topic_value row
    | None => "Original topic not found"
    end in
  exists (r : Response) (attachment : list (string * value)),
    posted (events (channel_topic app) w) = [r]
    /\ r !! "channel" = Some (VStr (ADMIN_CHANNEL app))
    /\ r !! "attachments" = Some (VList [VDict attachment])
    /\ dict_get "fields" attachment
       = Some (VList [VDict [("title", VStr "Previous topic"); ("value", VStr old_topic)];
                      VDict [("title", VStr "New topic"); ("value", VStr topic)]])
    /\ (is_Some (dict_get "actions" attachment) <-> is_Some record)
    /\ (is_Some (dict_get "callback_id" attachment) <-> is_Some record)
    /\ (is_Some record ->
        dict_get "callback_id" attachment = Some (VStr "topic_change")
        /\ dict_get "actions" attachment
           = Some (VList
               [VDict [("name", VStr "validate"); ("text", VStr "Validate");
                       ("style", VStr "primary"); ("type", VStr "button")];
                VDict [("name", VStr "revert"); ("text", VStr "Revert");
                       ("style", VStr "danger");
                       ("value",
                        VFormat [PJson (VDict [("channel", VStr channel);
                                               ("old_topic", VStr old_topic)])]);
                       ("type", VStr "button")]])).
Proof.
  intros Hpg Huser Hchannel Htopic Hadmin Hbot record old_topic.
  subst record old_topic.
  destruct (channels_table w !! channel) as [row |] eqn:Hrecord.
  all: unfold channel_topic, topic_actions; run_handler; cbn.
  all: rewrite Huser, !bool_decide_true by done.
  all: repeat (cbn; rewrite ?Hpg, ?Huser, ?Hchannel, ?Htopic, ?Hrecord).
  all: destruct (slack_api _ _ _); cbn.
  all: trace_tail; eexists; eexists; split; [reflexivity |].
  all: split; [by simplify_map_eq |].
  all: split; [by simplify_map_eq |].
  all: split; [reflexivity |].
  all: cbn; split; [split; intros [? ?]; by eauto |].
  all: split; [split; intros [? ?]; by eauto |].
  all: try by intros [? ?].
  all: done.
Qed.

Lemma channel_topic_notifies_admins_witness :
  exists (r : Response) (attachment : list (string * value)),
    posted (events (channel_topic Sample.app)
              (Sample.world_knowing_channel Sample.topic_change)) = [r]
    /\ r !! "channel" = Some (VStr "GADMIN")
    /\ r !! "attachments" = Some (VList [VDict attachment])
    /\ dict_get "fields" attachment
       = Some (VList [VDict [("title", VStr "Previous topic"); ("value", VStr "Python")];
                      VDict [("title", VStr "New topic");
                             ("value", VStr "Python, all day")]])
    /\ (is_Some (dict_get "actions" attachment)
        <-> is_Some (Some {| raw_topic_value := "Python" |}))
    /\ (is_Some (dict_get "callback_id" attachment)
        <-> is_Some (Some {| raw_topic_value := "Python" |}))
    /\ (is_Some (Some {| raw_topic_value := "Python" |}) ->
        dict_get "callback_id" attachment = Some (VStr "topic_change")
        /\ dict_get "actions" attachment
           = Some (VList
               [VDict [("name", VStr "validate"); ("text", VStr "Validate");
                       ("style", VStr "primary"); ("type", VStr "button")];
                VDict [("name", VStr "revert"); ("text", VStr "Revert");
                       ("style", VStr "danger");
                       ("value",
                        VFormat [PJson (VDict [("channel", VStr "C1");
                                               ("old_topic", VStr "Python")])]);
                       ("type", VStr "button")]])).
Proof.
  apply (channel_topic_notifies_admins Sample.app
           (Sample.world_knowing_channel Sample.topic_change)
           "U1" "C1" "Python, all day").
  - reflexivity.
  - reflexivity.
  - reflexivity.
  - reflexivity.
  - apply (bool_decide_unpack _). vm_compute. exact I.
  - apply (bool_decide_unpack _). vm_compute. exact I.
Defined.

(** Without a record of the channel the notice has no button. *)
Example channel_topic_unknown_channel :
  exists (r : Response) (attachment : list (string * value)),
    posted (events (channel_topic Sample.app) (Sample.world Sample.topic_change)) = [r]
    /\ r !! "attachments" = Some (VList [VDict attachment])
    /\ dict_get "actions" attachment = None
    /\ dict_get "callback_id" attachment = None
    /\ dict_get "fields" attachment
       = Some (VList [VDict [("title", VStr "Previous topic");
                             ("value", VStr "Original topic not found")];
                      VDict [("title", VStr "New topic");
                             ("value", VStr "Python, all day")]]).
Proof. eexists. eexists. repeat split; reflexivity. Qed.

(** *** [save_in_database] *)

Lemma stored_at_most_one (id : string) (rows : list MessageRow) :
  NoDup (map row_id rows) -> (length (List.filter (has_id id) rows) <= 1)%nat.
Proof.
  induction rows as [|row rows IH]; cbn; [lia |].
  intros Hkeys. apply NoDup_cons in Hkeys as [Hfresh Hkeys].
  unfold has_id at 1. case_bool_decide as Hid; cbn; [| by apply IH].
  assert (Hnone : List.filter (has_id id) rows = []).
  { clear IH Hkeys. induction rows as [|other rows IH]; cbn; [done |].
    cbn in Hfresh. apply not_elem_of_cons in Hfresh as [Hother Hfresh].
    unfold has_id at 1. rewrite bool_decide_false by congruence. by apply IH. }
  rewrite Hnone. cbn. lia.
Qed.

Lemma stored_none (id : string) (rows : list MessageRow) :
  existsb (has_id id) rows = false -> List.filter (has_id id) rows = [].
Proof.
  induction rows as [|row rows IH]; cbn; [done |].
  destruct (has_id id row); cbn; [done | exact IH].
Qed.

Lemma stored_some (id : string) (rows : list MessageRow) :
  existsb (has_id id) rows = true -> (1 <= length (List.filter (has_id id) rows))%nat.
Proof.
  induction rows as [|row rows IH]; cbn; [done |].
  destruct (has_id id row); cbn; [lia | exact IH].
Qed.

Section SaveInDatabase.

Context (app : App) (w : World) (ts : string) (seconds time : Z).
Hypothesis Hpg : pg_loaded app = true.
Hypothesis Hts : message w !! "ts" = Some ts.
Hypothesis Hfull : ts ≠ "".
Hypothesis Hseconds : ts_seconds ts = inr seconds.
Hypothesis Htime : fromtimestamp seconds = inr time.

(** A delivery whose identifier is not stored yet adds its row. *)
Lemma save_in_database_fresh :
  existsb (has_id ts) (messages_table w) = false ->
  outcome (save_in_database app) w = inr tt
  /\ messages_table (after (save_in_database app) w)
     = messages_table w ++ [(row_of (message w) ts time)]
  /\ events (save_in_database app) w
     = [Log DEBUG saving_message; PgInsertMessage (row_of (message w) ts time)].
Proof.
  intros Hfresh. unfold save_in_database, row_of. run_handler.
  assert (Hguard : bool_decide (ts ≠ "") = true) by by apply bool_decide_true.
  repeat (cbn -[bool_decide];
          rewrite ?Hpg, ?Hts, ?Hguard, ?Hseconds, ?Htime, ?Hfresh).
  repeat split. by trace_tail.
Qed.

(** A delivery whose identifier is stored is refused by the table; the
    handler absorbs the refusal. *)
Lemma save_in_database_known :
  existsb (has_id ts) (messages_table w) = true ->
  outcome (save_in_database app) w = inr tt
  /\ messages_table (after (save_in_database app) w) = messages_table w
  /\ events (save_in_database app) w
     = [Log DEBUG saving_message; PgInsertMessage (row_of (message w) ts time);
        Log DEBUG already_in_database].
Proof.
  intros Hknown. unfold save_in_database, row_of. run_handler.
  assert (Hguard : bool_decide (ts ≠ "") = true) by by apply bool_decide_true.
  repeat (cbn -[bool_decide];
          rewrite ?Hpg, ?Hts, ?Hguard, ?Hseconds, ?Htime, ?Hknown).
  repeat split. by trace_tail.
Qed.

(** After a delivery the identifier is stored, once if the table held
    its key before. *)
Lemma save_in_database_stores :
  NoDup (map row_id (messages_table w)) ->
  existsb (has_id ts) (messages_table (after (save_in_database app) w)) = true
  /\ length (stored ts (after (save_in_database app) w)) = 1%nat.
Proof.
  intros Hkeys. unfold stored.
  destruct (existsb (has_id ts) (messages_table w)) eqn:Hknown.
  - destruct (save_in_database_known Hknown) as (_ & -> & _).
    split; [done |].
    pose proof (stored_at_most_one ts _ Hkeys).
    pose proof (stored_some _ _ Hknown). lia.
  - destruct (save_in_database_fresh Hknown) as (_ & -> & _).
    rewrite existsb_app, Hknown, List.filter_app, (stored_none _ _ Hknown).
    cbn. unfold has_id. by rewrite bool_decide_true.
Qed.

End SaveInDatabase.

(** C2. A message with a non-empty timestamp identifier is delivered to
    [save_in_database], and then a message with the same identifier is
    delivered again, the database plugin being loaded and the identifier
    being a timestamp. After the second delivery exactly one row is stored
    under the identifier. The second delivery sends its INSERT once, the
    uniqueness violation that answers it is caught, the handler returns
    without raising, the table is left as the first delivery left it, and
    the only lines logged are at debug level. *)
Theorem save_in_database_redelivery (app : App) (w : World) (ts : string)
    (seconds time : Z) (again : Message) :
  pg_loaded app = true ->
  message w !! "ts" = Some ts ->
  ts ≠ "" ->
  ts_seconds ts = inr seconds ->
  fromtimestamp seconds = inr time ->
  NoDup (map row_id (messages_table w)) ->
  again !! "ts" = Some ts ->
  let first := after (save_in_database app) w in
  let second := receive again first in
  length (stored ts (after (save_in_database app) second)) = 1%nat
  /\ outcome (save_in_database app) second = inr tt
  /\ messages_table (after (save_in_database app) second) = messages_table first
  /\ (exists row,
        events (save_in_database app) second
        = [Log DEBUG saving_message; PgInsertMessage row;
           Log DEBUG already_in_database])
  /\ logged ERROR (events (save_in_database app) second) = [].
Proof.
  intros Hpg Hts Hfull Hseconds Htime Hkeys Hagain first second.
  destruct (save_in_database_stores app w ts seconds time
              Hpg Hts Hfull Hseconds Htime Hkeys) as [Hknown Hone].
  fold first in Hknown, Hone.
  assert (Hts2 : message second !! "ts" = Some ts) by done.
  assert (Hknown2 : existsb (has_id ts) (messages_table second) = true) by done.
  destruct (save_in_database_known app second ts seconds time
              Hpg Hts2 Hfull Hseconds Htime Hknown2) as (Hend & Htable & Hevents).
  split; [| split; [| split; [| split]]].
  - unfold stored in *. by rewrite Htable.
  - exact Hend.
  - exact Htable.
  - eexists. exact Hevents.
  - by rewrite Hevents.
Qed.

Lemma save_in_database_redelivery_witness :
  length (stored "1530000000.000100"
            (after (save_in_database Sample.app)
               (receive (Sample.msg "U1" "hello again")
                  (after (save_in_database Sample.app)
                     (Sample.world (Sample.msg "U1" "hello")))))) = 1%nat
  /\ outcome (save_in_database Sample.app)
       (receive (Sample.msg "U1" "hello again")
          (after (save_in_database Sample.app)
             (Sample.world (Sample.msg "U1" "hello")))) = inr tt.
Proof.
  destruct (save_in_database_redelivery Sample.app
              (Sample.world (Sample.msg "U1" "hello")) "1530000000.000100"
              1530000000 1530000000 (Sample.msg "U1" "hello again"))
    as (Hone & Hend & _).
  - reflexivity.
  - reflexivity.
  - vm_compute. discriminate.
  - reflexivity.
  - reflexivity.
  - vm_compute. constructor.
  - reflexivity.
  - split; [exact Hone | exact Hend].
Defined.

(** *** The incoming message as a frame *)

Section Frame.

Context {S V : Type} (view : S -> V).

Lemma keeps_ret {A} (a : A) : keeps view (ret a).
Proof. by intros s. Qed.

Lemma keeps_raise {A} (e : exn) : keeps view (@raise S A e).
Proof. by intros s. Qed.

Lemma keeps_bind {A B} (c : M S A) (f : A -> M S B) :
  keeps view c -> (forall a, keeps view (f a)) -> keeps view (bind c f).
Proof.
  intros Hc Hf s. unfold bind. specialize (Hc s).
  destruct (c s) as [s' [e | a]]; cbn in *; [done |].
  by rewrite Hf.
Qed.

Lemma keeps_try_except {A} (c : M S A) (handler : exn -> option (M S A)) :
  keeps view c ->
  (forall e, match handler e with Some h => keeps view h | None => True end) ->
  keeps view (try_except c handler).
Proof.
  intros Hc Hh s. unfold try_except. specialize (Hc s).
  destruct (c s) as [s' [e | a]]; cbn in *; [| done].
  specialize (Hh e). destruct (handler e) as [h |]; [| done].
  by rewrite Hh.
Qed.

Lemma keeps_try_except_else {A B} (c : M S A) (handler : exn -> option (M S B))
    (orelse : A -> M S B) :
  keeps view c ->
  (forall e, match handler e with Some h => keeps view h | None => True end) ->
  (forall a, keeps view (orelse a)) ->
  keeps view (try_except_else c handler orelse).
Proof.
  intros Hc Hh Helse s. unfold try_except_else. specialize (Hc s).
  destruct (c s) as [s' [e | a]]; cbn in *.
  - specialize (Hh e). destruct (handler e) as [h |]; [| done].
    by rewrite Hh.
  - by rewrite Helse.
Qed.

Lemma keeps_of_result {A} (r : exn + A) : keeps view (of_result r).
Proof. by destruct r. Qed.

Lemma keeps_load {A} (name : string) (v : local A) : keeps view (load name v).
Proof. by destruct v. Qed.

End Frame.

Section MessageFrame.

(** What is watched is a function of the message alone. *)
Context {V : Type} (g : Message -> V).

Let view (w : World) : V := g (message w).
Let view_l {L : Type} (s : World * L) : V := g (message s.1).

Lemma keeps_emit (ev : event) : keeps view (emit ev).
Proof. by intros w. Qed.

Lemma keeps_LOG (lvl : level) (msg : string) : keeps view (LOG lvl msg).
Proof. by intros w. Qed.

Lemma keeps_message_getitem (key : string) : keeps view (message_getitem key).
Proof. intros w. unfold message_getitem. by destruct (message w !! key). Qed.

Lemma keeps_message_get (key : string) : keeps view (message_get key).
Proof. by intros w. Qed.

Lemma keeps_message_dict : keeps view message_dict.
Proof. by intros w. Qed.

Lemma keeps_message_response : keeps view message_response.
Proof.
  apply keeps_bind; [apply keeps_message_getitem | intros channel].
  apply keeps_bind; [apply keeps_message_get | intros thread].
  apply keeps_ret.
Qed.

Lemma keeps_of_http {A} (r : Z + A) : keeps view (of_http r).
Proof. by destruct r. Qed.

Lemma keeps_api_query (app : App) (url : methods) (data : Response) :
  keeps view (api_query app url data).
Proof.
  apply keeps_bind; [apply keeps_emit | intros _]. apply keeps_of_result.
Qed.

Lemma keeps_crypto (app : App) : keeps view (crypto app).
Proof. apply keeps_bind; [apply keeps_emit | intros _]. apply keeps_of_http. Qed.

Lemma keeps_book (app : App) (sym : string) : keeps view (book app sym).
Proof. apply keeps_bind; [apply keeps_emit | intros _]. apply keeps_of_http. Qed.

Lemma keeps_logo (app : App) (sym : string) : keeps view (logo app sym).
Proof. apply keeps_bind; [apply keeps_emit | intros _]. apply keeps_of_http. Qed.

Lemma keeps_http_request (app : App) (url : string) :
  keeps view (http_request app url).
Proof. apply keeps_bind; [apply keeps_emit | intros _]. apply keeps_of_result. Qed.

Lemma keeps_pg_plugin (app : App) : keeps view (pg_plugin app).
Proof. unfold pg_plugin. by destruct (pg_loaded app). Qed.

Lemma keeps_pg_insert_message (row : MessageRow) :
  keeps view (pg_insert_message row).
Proof.
  apply keeps_bind; [apply keeps_emit | intros _]. intros w.
  by destruct (existsb _ _).
Qed.

Lemma keeps_pg_select_channel (id : string) : keeps view (pg_select_channel id).
Proof. apply keeps_bind; [apply keeps_emit | intros _]. by intros w. Qed.

Lemma keeps_pg_select_user (id : string) : keeps view (pg_select_user id).
Proof. apply keeps_bind; [apply keeps_emit | intros _]. by intros w. Qed.

Lemma keeps_lift {L A} (c : M World A) : keeps view c -> keeps (@view_l L) (lift c).
Proof.
  intros Hc [w l]. unfold lift, view_l. cbn. specialize (Hc w).
  by destruct (c w).
Qed.

Lemma keeps_locals {L} : keeps (@view_l L) locals.
Proof. by intros s. Qed.

Lemma keeps_set_locals {L} (l : L) : keeps (@view_l L) (set_locals l).
Proof. by intros s. Qed.

Lemma keeps_with_locals {L A} (init : L) (c : M (World * L) A) :
  keeps (@view_l L) c -> keeps view (with_locals init c).
Proof.
  intros Hc w. unfold with_locals. specialize (Hc (w, init)).
  by destruct (c (w, init)).
Qed.

End MessageFrame.

(** One step of a frame proof: the rule of the construct at the head of the
    program, or a case analysis where the program branches. *)
Ltac frame_step :=
  first
    [ apply keeps_ret | apply keeps_raise | apply keeps_of_result
    | apply keeps_load | apply keeps_emit | apply keeps_LOG
    | apply keeps_message_getitem | apply keeps_message_get
    | apply keeps_message_dict | apply keeps_message_response
    | apply keeps_of_http | apply keeps_api_query | apply keeps_crypto
    | apply keeps_book | apply keeps_logo | apply keeps_http_request
    | apply keeps_pg_plugin | apply keeps_pg_insert_message
    | apply keeps_pg_select_channel | apply keeps_pg_select_user
    | apply keeps_locals | apply keeps_set_locals
    | apply keeps_lift | apply keeps_with_locals
    | apply keeps_bind; [| intros ?]
    | apply keeps_try_except; [| intros []; cbn; try exact I]
    | apply keeps_try_except_else; [| intros []; cbn; try exact I | intros ?]
    | match goal with
      | |- keeps _ (match ?x with _ => _ end) => destruct x
      | |- keeps _ (if ?b then _ else _) => destruct b
      end ].

Ltac frame := cbv zeta; repeat (frame_step; cbv zeta).

Section HandlersFrame.

Context {V : Type} (g : Message -> V) (app : App).

Let view (w : World) : V := g (message w).

Lemma keeps_crypto_quote : keeps view (crypto_quote app).
Proof.
  unfold crypto_quote, assign_quote, assign_response, load_quote. frame.
Qed.

Lemma keeps_stock_quote : keeps view (stock_quote app).
Proof. unfold stock_quote. frame. Qed.

Lemma keeps_hello : keeps view (hello app).
Proof. unfold hello. frame. Qed.

Lemma keeps_help_message : keeps view (help_message app).
Proof. unfold help_message. frame. Qed.

Lemma keeps_tell : keeps view (tell app).
Proof. unfold tell. frame. Qed.

Lemma keeps_mention : keeps view (mention app).
Proof. unfold mention. frame. Qed.

Lemma keeps_save_in_database : keeps view (save_in_database app).
Proof. unfold save_in_database. frame. Qed.

Lemma keeps_channel_topic : keeps view (channel_topic app).
Proof. unfold channel_topic. frame. Qed.

Lemma keeps_inspect : keeps view (inspect app).
Proof. unfold inspect. frame. Qed.

End HandlersFrame.

(** [github_repo_link] writes the text of the message, and nothing else of
    it. *)
Lemma keeps_message_setitem_text (v : string) :
  keeps (fun w => delete "text" (message w)) (message_setitem "text" v).
Proof. intros w. cbn. apply delete_insert_eq. Qed.

Lemma keeps_github_repo_loop (app : App) (n : nat) (response0 : Response) :
  keeps (fun w => delete "text" (message w)) (github_repo_loop app n response0).
Proof.
  revert response0. induction n as [|n IH]; intros response0; cbn [github_repo_loop].
  - apply keeps_ret.
  - apply keeps_bind; [apply (keeps_message_getitem (delete "text")) | intros text].
    cbv zeta. destruct (Py.split _) as [|repo pieces]; [apply keeps_raise |].
    apply keeps_bind; [apply keeps_message_setitem_text | intros _].
    apply keeps_bind; [apply (keeps_http_request (delete "text")) | intros status].
    apply keeps_bind; [| intros response1; apply IH].
    destruct (status =? 200); [| apply keeps_ret].
    apply keeps_bind; [apply (keeps_api_query (delete "text")) | intros _].
    apply keeps_ret.
Qed.

Lemma keeps_github_repo_link (app : App) :
  keeps (fun w => delete "text" (message w)) (github_repo_link app).
Proof.
  unfold github_repo_link.
  apply keeps_bind; [apply (keeps_message_get (delete "text")) | intros text].
  destruct text as [t |]; [| apply keeps_ret].
  destruct (bool_decide (t ≠ "")); [| apply keeps_ret].
  apply keeps_bind; [apply (keeps_message_response (delete "text")) | intros r].
  apply keeps_github_repo_loop.
Qed.

(** C3, as the code has it. Every handler but [github_repo_link] leaves the
    message it received unchanged, and derives its response as a separate
    draft. [github_repo_link] rewrites the text of the message it received;
    every other field of the message is left unchanged by every handler. *)
Theorem handlers_frame (e : endpoint) (app : App) (w : World) :
  (e ≠ GithubRepoLink -> message (after (body e app) w) = message w)
  /\ (forall key, key ≠ "text" ->
      message (after (body e app) w) !! key = message w !! key).
Proof.
  assert (Hothers : e ≠ GithubRepoLink -> message (after (body e app) w) = message w).
  { intros He. unfold after. destruct e; cbn [body]; try done.
    - apply (keeps_hello id).
    - apply (keeps_tell id).
    - apply (keeps_mention id).
    - apply (keeps_save_in_database id).
    - apply (keeps_channel_topic id).
    - apply (keeps_inspect id).
    - apply (keeps_help_message id).
    - apply (keeps_stock_quote id).
    - apply (keeps_crypto_quote id). }
  split; [exact Hothers |].
  intros key Hkey. destruct (decide (e = GithubRepoLink)) as [-> | He].
  - pose proof (keeps_github_repo_link app w) as Hrest. cbv beta in Hrest.
    unfold after. cbn [body].
    rewrite <- (lookup_delete_ne (message _) "text" key) by done.
    rewrite Hrest. by rewrite lookup_delete_ne.
  - by rewrite Hothers.
Qed.

(** C3, as stated, fails: [github_repo_link] cuts the text of the message
    it is given. *)
Lemma github_repo_link_rewrites_text :
  message (Sample.world (Sample.msg "U1" "see g#sirbot ok")) !! "text"
    = Some "see g#sirbot ok"
  /\ message (after (body GithubRepoLink Sample.app)
                (Sample.world (Sample.msg "U1" "see g#sirbot ok"))) !! "text"
     = Some "k"
  /\ message (after (body GithubRepoLink Sample.app)
                (Sample.world (Sample.msg "U1" "see g#sirbot ok")))
     ≠ message (Sample.world (Sample.msg "U1" "see g#sirbot ok")).
Proof.
  split; [reflexivity |]. split; [reflexivity |].
  intros Hsame.
  assert (Htext : message (after (body GithubRepoLink Sample.app)
                             (Sample.world (Sample.msg "U1" "see g#sirbot ok")))
                    !! "text" = Some "see g#sirbot ok") by (by rewrite Hsame).
  vm_compute in Htext. discriminate.
Qed.

(** *** What [STOCK_REGEX] extracts *)

Lemma str_chars (l : list ascii) : Py.chars (Py.str l) = l.
Proof. apply String.list_ascii_of_string_of_list_ascii. Qed.

Lemma str_length (l : list ascii) : String.length (Py.str l) = length l.
Proof.
  unfold Py.str. induction l as [|a l IH]; cbn; [done | by f_equal].
Qed.

(** A repetition of a character class consumes a run of characters of the
    class, between its bounds, and leaves the captures alone. *)
Lemma iterate_class ranges lo h k fuel count last cu gs res :
  (lo <= h)%nat -> (count <= h)%nat ->
  Re.iterate (Re.run false (Re.Class ranges)) lo (Some h) k fuel count last cu gs
    = Some res ->
  exists taken cu',
    Re.rest cu = taken ++ Re.rest cu'
    /\ Forall (fun a => Re.in_class false ranges a = true) taken
    /\ (lo <= count + length taken <= h)%nat
    /\ k cu' gs = Some res.
Proof.
  intros Hbounds. revert count last cu gs.
  induction fuel as [|fuel IH]; intros count last cu gs Hcount;
    cbn [Re.iterate Re.run].
  - destruct (lo <=? count)%nat eqn:Hlo; [| done]. intros Hk.
    apply Nat.leb_le in Hlo. exists [], cu. rewrite Nat.add_0_r. by repeat split.
  - assert (Hstop : (if (lo <=? count)%nat then k cu gs else None) = Some res ->
                    exists taken cu',
                      Re.rest cu = taken ++ Re.rest cu'
                      /\ Forall (fun a => Re.in_class false ranges a = true) taken
                      /\ (lo <= count + length taken <= h)%nat
                      /\ k cu' gs = Some res).
    { destruct (lo <=? count)%nat eqn:Hlo; [| done]. intros Hk.
      apply Nat.leb_le in Hlo. exists [], cu. rewrite Nat.add_0_r. by repeat split. }
    destruct (_ || _) eqn:Hmore; [| exact Hstop].
    destruct (Re.rest cu) as [|a s] eqn:Hrest; [exact Hstop |].
    destruct (Re.in_class false ranges a) eqn:Hclass; [| exact Hstop].
    destruct (Re.iterate _ _ _ _ _ _ _ _ _) as [res' |] eqn:Hbody; [| exact Hstop].
    intros [= ->].
    assert (Hnext : (S count <= h)%nat).
    { apply orb_true_iff in Hmore as [Hlt | Hbelow].
      - apply Nat.ltb_lt in Hlt. lia.
      - apply andb_true_iff in Hbelow as [Hbelow _]. unfold Re.below in Hbelow.
        apply Nat.ltb_lt in Hbelow. lia. }
    apply IH in Hbody as (taken & cu' & Htaken & Hall & Hlen & Hk); [| exact Hnext].
    exists (a :: taken), cu'. cbn in Htaken. rewrite Htaken. cbn.
    repeat split; [by constructor | lia | lia | exact Hk].
Qed.

Lemma upper_or_dot_char (a : ascii) :
  Re.in_class false [("A", "Z"); (".", ".")]%char a = true ->
  Py.is_upper a = true \/ a = "."%char.
Proof.
  unfold Re.in_class. cbn [existsb fst snd]. rewrite orb_false_r.
  intros [Hupper | Hdot]%orb_true_iff; [by left | right].
  unfold Py.in_range, Py.code in Hdot.
  apply andb_true_iff in Hdot as [Hlo Hhi].
  apply N.leb_le in Hlo, Hhi.
  rewrite <- (ascii_N_embedding a).
  replace (N_of_ascii a) with (N_of_ascii "."%char) by (cbn in *; lia).
  reflexivity.
Qed.

Lemma stock_regex_symbol (text : string) (gs : Re.captures) :
  Re.search false STOCK_REGEX text = Some gs ->
  exists S, Re.group "symbol" gs = Some S /\ ticker_symbol S.
Proof.
  intros Hsearch. apply search_at_run in Hsearch as [cu Hrun].
  unfold STOCK_REGEX in Hrun. cbn [Re.seq Re.run] in Hrun.
  destruct (Re.rest cu) as [|a s]; [done |].
  destruct (Re.same_char false "$" a); [| done].
  destruct (Re.at_boundary (Re.advance a s)); [| done].
  apply iterate_class in Hrun as (taken & cu' & Htaken & Hall & Hlen & Hk);
    [| lia | lia].
  destruct (Re.at_boundary cu'); [| done].
  injection Hk as <-. cbn [Re.advance Re.rest] in *.
  exists (Py.str taken). split; [| split].
  - unfold Re.group. rewrite bool_decide_true by done. f_equal. f_equal.
    rewrite Htaken, length_app, take_app_length'; [done | lia].
  - rewrite str_length. lia.
  - rewrite str_chars. eapply Forall_impl; [exact Hall |].
    intros c Hc. by apply upper_or_dot_char.
Qed.

(** X1. Whenever [STOCK_REGEX] finds a match in a text, the group [symbol]
    took part in it, and the symbol it holds has between one and five
    characters, each an upper-case letter or a dot. *)
Theorem stock_symbol_shape (text : string) (gs : Re.captures) :
  Re.search false STOCK_REGEX text = Some gs ->
  exists S,
    Re.group "symbol" gs = Some S
    /\ (1 <= String.length S <= 5)%nat
    /\ Forall (fun a => Py.is_upper a = true \/ a = "."%char) (Py.chars S).
Proof. apply stock_regex_symbol. Qed.

Lemma stock_symbol_shape_witness :
  exists S,
    Re.group "symbol" [("symbol", "BRK.A")] = Some S
    /\ (1 <= String.length S <= 5)%nat
    /\ Forall (fun a => Py.is_upper a = true \/ a = "."%char) (Py.chars S).
Proof.
  apply (stock_symbol_shape "buy $BRK.A now" [("symbol", "BRK.A")]).
  reflexivity.
Defined.

(** *** Further properties: the short handlers *)

Lemma logging_logging (evs1 evs2 : list event) (w : World) :
  logging evs2 (logging evs1 w) = logging (evs1 ++ evs2) w.
Proof. unfold logging. cbn. by rewrite app_assoc. Qed.

Lemma logging_nil (w : World) : logging [] w = w.
Proof. destruct w. unfold logging. cbn. by rewrite app_nil_r. Qed.

(** X2. For a message with a channel and a user, [hello] does one thing: it
    posts one message, to the channel and the thread of the incoming
    message, whose text greets the user by a mention. The handler ends as
    the post does: a failing post is not caught. *)
Theorem hello_greets_author (app : App) (w : World) (channel user : string) :
  message w !! "channel" = Some channel ->
  message w !! "user" = Some user ->
  exists r : Response,
    run (hello app) w
      = (logging [SlackQuery CHAT_POST_MESSAGE r] w,
         discard (slack_api app CHAT_POST_MESSAGE r))
    /\ r !! "text" = Some (VStr ("Hello <@" +:+ user +:+ ">"))
    /\ r !! "channel" = Some (VStr channel)
    /\ r !! "thread_ts" = VStr <$> message w !! "thread_ts".
Proof.
  intros Hchannel Huser. unfold hello. run_handler. unfold logging.
  repeat (cbn; rewrite ?Hchannel, ?Huser).
  exists (<["text" := VStr ("Hello <@" +:+ user +:+ ">")]>
            (draft channel (message w !! "thread_ts"))).
  unfold draft. split.
  - by destruct (slack_api app _ _).
  - destruct (message w !! "thread_ts"); by simplify_map_eq.
Qed.

Lemma hello_greets_author_witness :
  exists r : Response,
    run (hello Sample.app) (Sample.world (Sample.msg "U1" "<@UBOT> hello"))
      = (logging [SlackQuery CHAT_POST_MESSAGE r]
           (Sample.world (Sample.msg "U1" "<@UBOT> hello")),
         discard (slack_api Sample.app CHAT_POST_MESSAGE r))
    /\ r !! "text" = Some (VStr "Hello <@U1>")
    /\ r !! "channel" = Some (VStr "C1")
    /\ r !! "thread_ts" = None.
Proof.
  apply (hello_greets_author Sample.app
           (Sample.world (Sample.msg "U1" "<@UBOT> hello")) "C1" "U1").
  - reflexivity.
  - reflexivity.
Defined.

(** X3. For a message of another user than the bot, with a channel and a
    timestamp, [mention] makes exactly one call: it adds the reaction
    [sirbot] to that message, in that channel. It posts nothing, and returns
    when the call succeeds. *)
Theorem mention_reacts_once (app : App) (w : World) (user channel ts : string) :
  message w !! "user" = Some user -> user ≠ bot_user_id app ->
  message w !! "channel" = Some channel -> message w !! "ts" = Some ts ->
  exists r : Response,
    events (mention app) w = [SlackQuery REACTIONS_ADD r]
    /\ r !! "name" = Some (VStr "sirbot")
    /\ r !! "channel" = Some (VStr channel)
    /\ r !! "timestamp" = Some (VStr ts)
    /\ (forall v, slack_api app REACTIONS_ADD r = inr v ->
        outcome (mention app) w = inr tt).
Proof.
  intros Huser Hother Hchannel Hts. exists (reaction channel ts).
  unfold mention. run_handler.
  rewrite Huser, bool_decide_true, Hchannel, Hts by done. cbn.
  split; [| split; [| split; [| split]]].
  - destruct (slack_api app _ _) as [[] |]; cbn; repeat case_bool_decide; cbn;
      by trace_tail.
  - by unfold reaction; simplify_map_eq.
  - by unfold reaction; simplify_map_eq.
  - by unfold reaction; simplify_map_eq.
  - by intros v ->.
Qed.

Lemma mention_reacts_once_witness :
  exists r : Response,
    events (mention Sample.app) (Sample.world (Sample.msg "U1" "<@UBOT> hi"))
      = [SlackQuery REACTIONS_ADD r]
    /\ r !! "name" = Some (VStr "sirbot")
    /\ r !! "channel" = Some (VStr "C1")
    /\ r !! "timestamp" = Some (VStr "1530000000.000100")
    /\ (forall v, slack_api Sample.app REACTIONS_ADD r = inr v ->
        outcome (mention Sample.app) (Sample.world (Sample.msg "U1" "<@UBOT> hi"))
          = inr tt).
Proof.
  apply (mention_reacts_once Sample.app (Sample.world (Sample.msg "U1" "<@UBOT> hi"))
           "U1" "C1" "1530000000.000100").
  - reflexivity.
  - apply (bool_decide_unpack _). vm_compute. exact I.
  - reflexivity.
  - reflexivity.
Defined.

(** X4. A message of another user that has no timestamp makes [mention]
    raise [KeyError]: the clause of the handler catches chat API errors
    only. No call is made. *)
Theorem mention_without_timestamp (app : App) (w : World) (user : string) :
  message w !! "user" = Some user -> user ≠ bot_user_id app ->
  message w !! "ts" = None ->
  events (mention app) w = []
  /\ exists key, outcome (mention app) w = inl (KeyError key).
Proof.
  intros Huser Hother Hts. unfold mention. run_handler.
  rewrite Huser, bool_decide_true by done.
  destruct (message w !! "channel"); cbn; rewrite ?Hts; cbn.
  all: split; [by rewrite drop_all | eauto].
Qed.

Lemma mention_without_timestamp_witness :
  events (mention Sample.app)
    (Sample.world (delete "ts" (Sample.msg "U1" "<@UBOT> hi"))) = []
  /\ exists key,
       outcome (mention Sample.app)
         (Sample.world (delete "ts" (Sample.msg "U1" "<@UBOT> hi")))
       = inl (KeyError key).
Proof.
  apply (mention_without_timestamp Sample.app
           (Sample.world (delete "ts" (Sample.msg "U1" "<@UBOT> hi"))) "U1").
  - reflexivity.
  - apply (bool_decide_unpack _). vm_compute. exact I.
  - reflexivity.
Defined.

(** *** Further properties: [save_in_database] *)

(** X5. Without the database plugin [save_in_database] does nothing at all,
    whatever the message is: no log line, no call, no exception, even for a
    message without a timestamp. *)
Theorem save_in_database_without_plugin (app : App) (w : World) :
  pg_loaded app = false -> run (save_in_database app) w = (w, inr tt).
Proof. intros Hpg. unfold save_in_database, run. by rewrite Hpg. Qed.

Lemma save_in_database_without_plugin_witness :
  run (save_in_database Fixture.app_without_pg)
    (Sample.world (delete "ts" (Sample.msg "U1" "hello")))
  = (Sample.world (delete "ts" (Sample.msg "U1" "hello")), inr tt).
Proof.
  apply (save_in_database_without_plugin Fixture.app_without_pg
           (Sample.world (delete "ts" (Sample.msg "U1" "hello")))).
  reflexivity.
Defined.

(** X6. With the plugin loaded, a message whose timestamp is empty is not
    stored: the handler logs its debug line, sends no INSERT and returns. *)
Theorem save_in_database_empty_timestamp (app : App) (w : World) :
  pg_loaded app = true -> message w !! "ts" = Some "" ->
  run (save_in_database app) w = (logging [Log DEBUG saving_message] w, inr tt).
Proof.
  intros Hpg Hts. unfold save_in_database, logging. run_handler.
  by repeat (cbn; rewrite ?Hpg, ?Hts).
Qed.

Lemma save_in_database_empty_timestamp_witness :
  run (save_in_database Sample.app)
    (Sample.world (<["ts" := ""]> (Sample.msg "U1" "hello")))
  = (logging [Log DEBUG saving_message]
       (Sample.world (<["ts" := ""]> (Sample.msg "U1" "hello"))), inr tt).
Proof.
  apply (save_in_database_empty_timestamp Sample.app
           (Sample.world (<["ts" := ""]> (Sample.msg "U1" "hello")))).
  - reflexivity.
  - reflexivity.
Defined.

(** X7. With the plugin loaded, a message that has no [ts] key at all makes
    [save_in_database] raise [KeyError] before anything is logged or sent:
    the test of line 261 guards against an empty timestamp, not against a
    missing one. *)
Theorem save_in_database_missing_timestamp (app : App) (w : World) :
  pg_loaded app = true -> message w !! "ts" = None ->
  run (save_in_database app) w = (w, inl (KeyError "ts")).
Proof.
  intros Hpg Hts. unfold save_in_database. run_handler.
  by repeat (cbn; rewrite ?Hpg, ?Hts).
Qed.

Lemma save_in_database_missing_timestamp_witness :
  run (save_in_database Sample.app)
    (Sample.world (delete "ts" (Sample.msg "U1" "hello")))
  = (Sample.world (delete "ts" (Sample.msg "U1" "hello")), inl (KeyError "ts")).
Proof.
  apply (save_in_database_missing_timestamp Sample.app
           (Sample.world (delete "ts" (Sample.msg "U1" "hello")))).
  - reflexivity.
  - reflexivity.
Defined.

(** X8. With the plugin loaded, a non-empty timestamp whose part before the
    first dot is not an integer makes [save_in_database] raise [ValueError]
    while it evaluates the arguments of the INSERT: the INSERT is never
    sent and the table is left as it was. *)
Theorem save_in_database_bad_timestamp (app : App) (w : World) (ts : string) :
  pg_loaded app = true -> message w !! "ts" = Some ts -> ts ≠ "" ->
  Py.int (Py.split_dot_head ts) = None ->
  run (save_in_database app) w
  = (logging [Log DEBUG saving_message] w, inl ValueError).
Proof.
  intros Hpg Hts Hfull Hint. unfold save_in_database, ts_seconds, logging.
  run_handler.
  assert (Hguard : bool_decide (ts ≠ "") = true) by by apply bool_decide_true.
  repeat (cbn -[bool_decide]; rewrite ?Hpg, ?Hts, ?Hguard, ?Hint).
  reflexivity.
Qed.

Lemma save_in_database_bad_timestamp_witness :
  run (save_in_database Sample.app)
    (Sample.world (<["ts" := "soon.000100"]> (Sample.msg "U1" "hello")))
  = (logging [Log DEBUG saving_message]
       (Sample.world (<["ts" := "soon.000100"]> (Sample.msg "U1" "hello"))),
     inl ValueError).
Proof.
  apply (save_in_database_bad_timestamp Sample.app
           (Sample.world (<["ts" := "soon.000100"]> (Sample.msg "U1" "hello")))
           "soon.000100").
  - reflexivity.
  - reflexivity.
  - apply (bool_decide_unpack _). vm_compute. exact I.
  - reflexivity.
Defined.

(** X9. A first delivery is stored as it arrived: when no row is stored
    under the timestamp of the message, after [save_in_database] the rows
    stored under it are exactly one row, holding the text, the user and the
    channel of the message (null where the message has none) and the whole
    message as its raw payload. *)
Theorem save_in_database_stores_message (app : App) (w : World) (ts : string)
    (seconds time : Z) :
  pg_loaded app = true -> message w !! "ts" = Some ts -> ts ≠ "" ->
  ts_seconds ts = inr seconds -> fromtimestamp seconds = inr time ->
  stored ts w = [] ->
  stored ts (after (save_in_database app) w)
  = [{| row_id := ts; row_text := message w !! "text";
        row_user := message w !! "user"; row_channel := message w !! "channel";
        row_raw := message w; row_time := time |}].
Proof.
  intros Hpg Hts Hfull Hseconds Htime Hnone.
  assert (Hfresh : existsb (has_id ts) (messages_table w) = false).
  { destruct (existsb _ _) eqn:Hknown; [| done].
    apply stored_some in Hknown. unfold stored in Hnone. rewrite Hnone in Hknown.
    cbn in Hknown. lia. }
  destruct (save_in_database_fresh app w ts seconds time
              Hpg Hts Hfull Hseconds Htime Hfresh) as (_ & Htable & _).
  unfold stored in *. rewrite Htable, List.filter_app, Hnone. cbn.
  unfold has_id, row_of. cbn. by rewrite bool_decide_true.
Qed.

Lemma save_in_database_stores_message_witness :
  stored "1530000000.000100"
    (after (save_in_database Sample.app) (Sample.world (Sample.msg "U1" "hello")))
  = [{| row_id := "1530000000.000100"; row_text := Some "hello";
        row_user := Some "U1"; row_channel := Some "C1";
        row_raw := Sample.msg "U1" "hello"; row_time := 1530000000 |}].
Proof.
  apply (save_in_database_stores_message Sample.app
           (Sample.world (Sample.msg "U1" "hello")) "1530000000.000100"
           1530000000 1530000000).
  - reflexivity.
  - reflexivity.
  - apply (bool_decide_unpack _). vm_compute. exact I.
  - reflexivity.
  - reflexivity.
  - reflexivity.
Defined.

(** *** Further properties: [tell] *)

#[local] Arguments TELL_REGEX : simpl never.
#[local] Arguments INSPECT_REGEX : simpl never.

Lemma iterate_extends step lo hi k fuel count last cu gs res :
  extends step ->
  Re.iterate step lo hi k fuel count last cu gs = Some res ->
  exists cu' gs', gs `suffix_of` gs' /\ k cu' gs' = Some res.
Proof.
  intros Hstep. revert count last cu gs.
  induction fuel as [|fuel IH]; intros count last cu gs; cbn [Re.iterate].
  - destruct (lo <=? count)%nat; [eauto | done].
  - destruct (_ || _).
    + destruct (step cu gs _) as [res' |] eqn:Hbody.
      * intros [= ->]. apply Hstep in Hbody as (cu1 & gs1 & Hgs1 & Hmore).
        apply IH in Hmore as (cu2 & gs2 & Hgs2 & Hk).
        exists cu2, gs2. split; [by etrans | done].
      * destruct (lo <=? count)%nat; [eauto | done].
    + destruct (lo <=? count)%nat; [eauto | done].
Qed.

Lemma run_extends ci r : extends (Re.run ci r).
Proof.
  induction r as [| c | | ranges | | | r1 IH1 r2 IH2 | r1 IH1 r2 IH2
                 | lo hi r1 IH1 | name r1 IH1];
    intros cu gs k res; cbn [Re.run].
  - eauto.
  - destruct (Re.rest cu) as [|a s]; [done |].
    destruct (Re.same_char _ _ _); [eauto | done].
  - destruct (Re.rest cu) as [|a s]; [done |].
    destruct (bool_decide _); [done | eauto].
  - destruct (Re.rest cu) as [|a s]; [done |].
    destruct (Re.in_class _ _ _); [eauto | done].
  - destruct (Re.prev cu); [done | eauto].
  - destruct (Re.at_boundary cu); [eauto | done].
  - intros Hrun. apply IH1 in Hrun as (cu1 & gs1 & Hgs1 & Hrun).
    apply IH2 in Hrun as (cu2 & gs2 & Hgs2 & Hk).
    exists cu2, gs2. split; [by etrans | done].
  - destruct (Re.run ci r1 cu gs k) eqn:Hfirst.
    + intros [= ->]. by apply IH1 in Hfirst.
    + apply IH2.
  - by apply iterate_extends.
  - intros Hrun. apply IH1 in Hrun as (cu1 & gs1 & Hgs1 & Hk).
    eexists _, _. split; [| exact Hk]. by apply suffix_cons_r.
Qed.

Lemma run_cat_extends ci r1 r2 cu gs k res :
  Re.run ci (Re.Cat r1 r2) cu gs k = Some res ->
  exists cu' gs', gs `suffix_of` gs' /\ Re.run ci r2 cu' gs' k = Some res.
Proof. cbn [Re.run]. apply run_extends. Qed.

Lemma run_group_extends ci name r cu gs k res :
  Re.run ci (Re.Group name r) cu gs k = Some res ->
  exists cu' gs' v, gs `suffix_of` gs' /\ k cu' ((name, v) :: gs') = Some res.
Proof.
  cbn [Re.run]. intros Hrun.
  apply run_extends in Hrun as (cu' & gs' & Hgs' & Hk). eauto.
Qed.

Lemma group_suffix (name : string) (gs gs' : Re.captures) :
  gs `suffix_of` gs' -> is_Some (Re.group name gs) -> is_Some (Re.group name gs').
Proof.
  intros [added ->] Hbound. induction added as [|[n v] added IH]; [done |].
  cbn. unfold Re.group. fold Re.group. by case_bool_decide.
Qed.

Lemma run_cat ci r1 r2 cu gs k :
  Re.run ci (Re.Cat r1 r2) cu gs k
  = Re.run ci r1 cu gs (fun cu' gs' => Re.run ci r2 cu' gs' k).
Proof. reflexivity. Qed.

Lemma run_group ci name r cu gs k :
  Re.run ci (Re.Group name r) cu gs k
  = Re.run ci r cu gs (fun cu' gs' =>
      k cu' ((name, Py.str (take (length (Re.rest cu) - length (Re.rest cu'))
                              (Re.rest cu))) :: gs')).
Proof. reflexivity. Qed.

(** Every match of [TELL_REGEX] binds the destination and the text to
    relay. *)
Lemma tell_regex_binds (text : string) (gs : Re.captures) :
  Re.match_ false TELL_REGEX text = Some gs ->
  is_Some (Re.group "to_id" gs) /\ is_Some (Re.group "msg" gs).
Proof.
  unfold Re.match_, TELL_REGEX. cbn [Re.seq]. intros Hrun.
  apply run_cat_extends in Hrun as (cu1 & gs1 & _ & Hrun).
  rewrite run_cat, run_group in Hrun.
  apply run_cat_extends in Hrun as (cu2 & gs2 & _ & Hrun).
  apply run_cat_extends in Hrun as (cu3 & gs3 & _ & Hrun).
  rewrite run_cat in Hrun.
  apply run_group_extends in Hrun as (cu4 & gs4 & to_id & _ & Hrun).
  cbv beta in Hrun.
  apply run_extends in Hrun as (cu5 & gs5 & Hgs5 & Hrun). cbv beta in Hrun.
  apply run_cat_extends in Hrun as (cu6 & gs6 & Hgs6 & Hrun).
  apply run_group_extends in Hrun as (cu7 & gs7 & msg & Hgs7 & Hrun).
  injection Hrun as <-. split.
  - unfold Re.group. rewrite bool_decide_false by done. fold Re.group.
    apply (group_suffix "to_id" (("to_id", to_id) :: gs4)).
    + etrans; [exact Hgs5 |]. etrans; [| exact Hgs7].
      etrans; [| exact Hgs6]. by apply suffix_cons_r.
    + unfold Re.group. rewrite bool_decide_true by done. eauto.
  - unfold Re.group. rewrite bool_decide_true by done. eauto.
Qed.

(** The payload of the query the goal runs is the witness. *)
Ltac exists_query :=
  match goal with
  | |- context [slack_api _ CHAT_POST_MESSAGE ?d] => exists d
  end.

Section TellHandler.

Context (app : App) (w : World) (text channel : string).
Hypothesis Htext : message w !! "text" = Some text.
Hypothesis Hchannel : message w !! "channel" = Some channel.

(** The response [tell] posts, by the three ways its text can be read. *)
Lemma tell_run :
  exists r : Response,
    run (tell app) w
      = (logging [SlackQuery CHAT_POST_MESSAGE r] w,
         discard (slack_api app CHAT_POST_MESSAGE r))
    /\ match Re.match_ false TELL_REGEX text with
       | None =>
           r = <["text" := VStr "Sorry I can not understand"]>
                 (draft channel (message w !! "thread_ts"))
       | Some gs =>
           exists to_id, Re.group "to_id" gs = Some to_id
             /\ r = if starts_with_C_or_U to_id
                    then <["channel" := VStr to_id]>
                           (<["text" := str_value (Re.group "msg" gs)]>
                              (draft channel (message w !! "thread_ts")))
                    else <["text" := VStr "Sorry I can not understand the destination."]>
                           (draft channel (message w !! "thread_ts"))
       end.
Proof.
  unfold tell. run_handler. unfold logging, draft.
  repeat (cbn; rewrite ?Htext, ?Hchannel).
  destruct (Re.match_ false TELL_REGEX text) as [gs |] eqn:Hmatch; cbn.
  - destruct (tell_regex_binds text gs Hmatch) as [[to_id Hto] _].
    rewrite Hto. destruct (starts_with_C_or_U to_id) eqn:Hstart; cbn.
    all: exists_query; split; [| exists to_id; split; [done | by rewrite Hstart]].
    all: by destruct (slack_api app _ _).
  - exists_query. split; [| reflexivity]. by destruct (slack_api app _ _).
Qed.

End TellHandler.

(** X10. For every message that has a text and a channel, [tell] posts
    exactly one message and makes no other call, whether its text can be
    read as an order or not. The handler ends as the post does: it raises
    nothing of its own. *)
Theorem tell_always_answers (app : App) (w : World) (text channel : string) :
  message w !! "text" = Some text ->
  message w !! "channel" = Some channel ->
  exists r : Response,
    events (tell app) w = [SlackQuery CHAT_POST_MESSAGE r]
    /\ outcome (tell app) w = discard (slack_api app CHAT_POST_MESSAGE r).
Proof.
  intros Htext Hchannel.
  destruct (tell_run app w text channel Htext Hchannel) as (r & Hrun & _).
  exists r. unfold events, outcome, after. unfold run in Hrun. rewrite Hrun. cbn.
  split; [by rewrite drop_app_length | done].
Qed.

Lemma tell_always_answers_witness :
  exists r : Response,
    events (tell Sample.app) (Sample.world (Sample.msg "UADMIN" "tell me a story"))
      = [SlackQuery CHAT_POST_MESSAGE r]
    /\ outcome (tell Sample.app) (Sample.world (Sample.msg "UADMIN" "tell me a story"))
       = discard (slack_api Sample.app CHAT_POST_MESSAGE r).
Proof.
  apply (tell_always_answers Sample.app
           (Sample.world (Sample.msg "UADMIN" "tell me a story"))
           "tell me a story" "C1").
  - reflexivity.
  - reflexivity.
Defined.

(** X11. The one message [tell] posts goes either to the channel of the
    incoming message, or to a destination taken from its text whose
    identifier starts with [C] or [U]; in the second case its text is the
    text to relay, as it stands in the order. An order whose destination
    starts otherwise, or a text that is no order, is answered in the channel
    of the incoming message with an apology. *)
Theorem tell_destination (app : App) (w : World) (text channel : string) :
  message w !! "text" = Some text ->
  message w !! "channel" = Some channel ->
  exists r : Response,
    posted (events (tell app) w) = [r]
    /\ ((r !! "channel" = Some (VStr channel)
         /\ (r !! "text" = Some (VStr "Sorry I can not understand")
             \/ r !! "text"
                = Some (VStr "Sorry I can not understand the destination.")))
        \/ (exists gs to_id,
              Re.match_ false TELL_REGEX text = Some gs
              /\ Re.group "to_id" gs = Some to_id
              /\ starts_with_C_or_U to_id = true
              /\ r !! "channel" = Some (VStr to_id)
              /\ r !! "text" = Some (str_value (Re.group "msg" gs)))).
Proof.
  intros Htext Hchannel.
  destruct (tell_run app w text channel Htext Hchannel) as (r & Hrun & Hr).
  exists r. unfold events, after. unfold run in Hrun. rewrite Hrun. cbn.
  rewrite drop_app_length. split; [done |].
  destruct (Re.match_ false TELL_REGEX text) as [gs |].
  - destruct Hr as (to_id & Hto & ->).
    destruct (starts_with_C_or_U to_id) eqn:Hstart.
    + right. exists gs, to_id. repeat split; try done; by simplify_map_eq.
    + left. unfold draft.
      destruct (message w !! "thread_ts"); split; (by simplify_map_eq) || auto.
      all: right; by simplify_map_eq.
  - left. subst r. unfold draft.
    destruct (message w !! "thread_ts"); split; (by simplify_map_eq) || auto.
    all: left; by simplify_map_eq.
Qed.

Lemma tell_destination_witness :
  exists r : Response,
    posted (events (tell Sample.app)
              (Sample.world (Sample.msg "UADMIN" "tell <#C123|general> hi all")))
    = [r]
    /\ ((r !! "channel" = Some (VStr "C1")
         /\ (r !! "text" = Some (VStr "Sorry I can not understand")
             \/ r !! "text"
                = Some (VStr "Sorry I can not understand the destination.")))
        \/ (exists gs to_id,
              Re.match_ false TELL_REGEX "tell <#C123|general> hi all" = Some gs
              /\ Re.group "to_id" gs = Some to_id
              /\ starts_with_C_or_U to_id = true
              /\ r !! "channel" = Some (VStr to_id)
              /\ r !! "text" = Some (str_value (Re.group "msg" gs)))).
Proof.
  apply (tell_destination Sample.app
           (Sample.world (Sample.msg "UADMIN" "tell <#C123|general> hi all"))
           "tell <#C123|general> hi all" "C1").
  - reflexivity.
  - reflexivity.
Defined.

(** The order of the sample is relayed to the channel it names. *)
Example tell_relays :
  (fun r => (r !! "channel", r !! "text")) <$>
    posted (events (tell Sample.app)
              (Sample.world (Sample.msg "UADMIN" "tell <#C123|general> hi all")))
  = [(Some (VStr "C123"), Some (VStr "hi all"))].
Proof. reflexivity. Qed.

(** *** Further properties: [channel_topic], [inspect], [help_message] *)

(** X12. A topic change made by an admin or by the bot itself is not
    reported: [channel_topic] returns without a call, a log line or a
    lookup in the database. *)
Theorem channel_topic_ignores_admins (app : App) (w : World) (user : string) :
  message w !! "user" = Some user ->
  user ∈ admins app \/ user = bot_user_id app ->
  run (channel_topic app) w = (w, inr tt).
Proof.
  intros Huser Htrusted. unfold channel_topic. run_handler. rewrite Huser.
  destruct Htrusted as [Hadmin | Hbot].
  - by rewrite (bool_decide_false (user ∉ admins app)) by auto.
  - rewrite (bool_decide_false (user ≠ bot_user_id app)) by auto.
    by rewrite andb_false_r.
Qed.

Lemma channel_topic_ignores_admins_witness :
  run (channel_topic Sample.app) (Sample.world (Fixture.topic_change_by "UADMIN"))
  = (Sample.world (Fixture.topic_change_by "UADMIN"), inr tt).
Proof.
  apply (channel_topic_ignores_admins Sample.app
           (Sample.world (Fixture.topic_change_by "UADMIN")) "UADMIN").
  - reflexivity.
  - left. apply (bool_decide_unpack _). vm_compute. exact I.
Defined.

(** X13. Unlike [save_in_database], [channel_topic] does not test that the
    database plugin is loaded: without it, a topic change by an ordinary
    user makes the handler raise [KeyError] for the plugin, and no notice
    is posted. *)
Theorem channel_topic_needs_plugin (app : App) (w : World) (user : string) :
  pg_loaded app = false ->
  message w !! "user" = Some user ->
  user ∉ admins app -> user ≠ bot_user_id app ->
  run (channel_topic app) w = (w, inl (KeyError "pg")).
Proof.
  intros Hpg Huser Hadmin Hbot. unfold channel_topic. run_handler.
  rewrite Huser, !bool_decide_true by done. cbn. by rewrite Hpg.
Qed.

Lemma channel_topic_needs_plugin_witness :
  run (channel_topic Fixture.app_without_pg) (Sample.world Sample.topic_change)
  = (Sample.world Sample.topic_change, inl (KeyError "pg")).
Proof.
  apply (channel_topic_needs_plugin Fixture.app_without_pg
           (Sample.world Sample.topic_change) "U1").
  - reflexivity.
  - reflexivity.
  - apply (bool_decide_unpack _). vm_compute. exact I.
  - apply (bool_decide_unpack _). vm_compute. exact I.
Defined.

(** X14. [inspect] answers in the admin channel only, and only a message
    with a text: for a message of another channel, or one whose text is
    missing or empty, it returns without a call, a lookup or a response. *)
Theorem inspect_outside_admin_channel (app : App) (w : World) (channel : string) :
  message w !! "channel" = Some channel ->
  channel ≠ ADMIN_CHANNEL app
  \/ message w !! "text" = None \/ message w !! "text" = Some "" ->
  run (inspect app) w = (w, inr tt).
Proof.
  intros Hchannel Hout. unfold inspect. run_handler. rewrite Hchannel. cbn.
  destruct Hout as [Hother | [Hnone | Hempty]].
  - by rewrite (bool_decide_false (channel = _)).
  - rewrite Hnone, (bool_decide_false (is_Some None)) by (by intros [? ?]).
    by rewrite andb_false_r.
  - rewrite Hempty, (bool_decide_false (Some "" ≠ Some "")) by auto.
    by rewrite andb_false_r.
Qed.

Lemma inspect_outside_admin_channel_witness :
  run (inspect Sample.app) (Sample.world (Sample.msg "UADMIN" "inspect <@U2>"))
  = (Sample.world (Sample.msg "UADMIN" "inspect <@U2>"), inr tt).
Proof.
  apply (inspect_outside_admin_channel Sample.app
           (Sample.world (Sample.msg "UADMIN" "inspect <@U2>")) "C1").
  - reflexivity.
  - left. apply (bool_decide_unpack _). vm_compute. exact I.
Defined.

Section InspectHandler.

Context (app : App) (w : World) (text : string).
Hypothesis Hchannel : message w !! "channel" = Some (ADMIN_CHANNEL app).
Hypothesis Htext : message w !! "text" = Some text.
Hypothesis Hfull : text ≠ "".

Lemma inspect_guard_open :
  bool_decide (ADMIN_CHANNEL app = ADMIN_CHANNEL app)
  && bool_decide (is_Some (Some text)) && bool_decide (Some text ≠ Some "") = true.
Proof.
  rewrite !bool_decide_true; [done | congruence | eauto | done].
Qed.

(** A text without a mention is answered with an apology. *)
Lemma inspect_no_mention :
  Re.search false INSPECT_REGEX text = None ->
  exists r : Response,
    run (inspect app) w
      = (logging [SlackQuery CHAT_POST_MESSAGE r] w,
         discard (slack_api app CHAT_POST_MESSAGE r))
    /\ r !! "text" = Some (VStr "Sorry I couldn't figure out which user to inspect").
Proof.
  intros Hnone. unfold inspect. run_handler. unfold logging.
  rewrite Hchannel. cbn -[bool_decide]. rewrite Htext, inspect_guard_open.
  repeat (cbn -[bool_decide]; rewrite ?Hchannel, ?Htext, ?Hnone).
  exists_query. split; [by destruct (slack_api app _ _) |].
  destruct (message w !! "thread_ts"); by simplify_map_eq.
Qed.

(** A mentioned user who is on record is described from the record. *)
Lemma inspect_known_user (gs : Re.captures) (id : string) (row : UserRow) :
  pg_loaded app = true ->
  Re.search false INSPECT_REGEX text = Some gs ->
  Re.group "1" gs = Some id ->
  users_table w !! id = Some row ->
  exists r : Response,
    run (inspect app) w
      = (logging [PgSelectUser id; SlackQuery CHAT_POST_MESSAGE r] w,
         discard (slack_api app CHAT_POST_MESSAGE r))
    /\ r !! "text"
       = Some (profile_text (Some id)
                 (VDict (dict_set "join_date" (VFormat [PIsoformat (join_date row)])
                           (user_raw row)))).
Proof.
  intros Hpg Hsome Hid Hrow. unfold inspect. run_handler. unfold logging.
  rewrite Hchannel. cbn -[bool_decide]. rewrite Htext, inspect_guard_open.
  repeat (cbn -[bool_decide];
          rewrite ?Hchannel, ?Htext, ?Hsome, ?Hid, ?Hpg, ?Hrow).
  exists_query. rewrite <- !app_assoc. split; [by destruct (slack_api app _ _) |].
  destruct (message w !! "thread_ts"); by simplify_map_eq.
Qed.

(** A mentioned user who is not on record is asked of the chat API. *)
Lemma inspect_unknown_user (gs : Re.captures) (id : string) :
  pg_loaded app = true ->
  Re.search false INSPECT_REGEX text = Some gs ->
  Re.group "1" gs = Some id ->
  users_table w !! id = None ->
  exists rest,
    events (inspect app) w
    = PgSelectUser id :: SlackQuery USERS_INFO {["user" := VStr id]} :: rest
    /\ (forall reply user,
          slack_api app USERS_INFO {["user" := VStr id]} = inr reply ->
          value_getitem reply "user" = inr user ->
          exists r, rest = [SlackQuery CHAT_POST_MESSAGE r]
            /\ r !! "text" = Some (profile_text (Some id) user)).
Proof.
  intros Hpg Hsome Hid Hrow. unfold inspect. run_handler.
  rewrite Hchannel. cbn -[bool_decide]. rewrite Htext, inspect_guard_open.
  repeat (cbn -[bool_decide];
          rewrite ?Hchannel, ?Htext, ?Hsome, ?Hid, ?Hpg, ?Hrow).
  destruct (slack_api app USERS_INFO _) as [e | reply] eqn:Hinfo; cbn.
  { trace_tail. eexists. split; [reflexivity |]. by intros reply user [=]. }
  destruct (value_getitem reply "user") as [e | user] eqn:Huser; cbn.
  { trace_tail. eexists. split; [reflexivity |].
    intros reply' user' [= <-]. by rewrite Huser. }
  destruct (slack_api app CHAT_POST_MESSAGE _) eqn:Hpost; cbn.
  all: trace_tail; eexists; split; [reflexivity |].
  all: intros reply' user' [= <-]; rewrite Huser; intros [= <-].
  all: eexists; split; [reflexivity |].
  all: destruct (message w !! "thread_ts"); by simplify_map_eq.
Qed.

End InspectHandler.

(** X15. In the admin channel, [inspect] reads the profile of the mentioned
    user from the users table first. When the user is on record, the
    chat API is not asked for the profile: the only calls are the lookup
    and the post of the record, to which the join date was added. *)
Theorem inspect_prefers_database (app : App) (w : World) (text : string)
    (gs : Re.captures) (id : string) (row : UserRow) :
  message w !! "channel" = Some (ADMIN_CHANNEL app) ->
  message w !! "text" = Some text -> text ≠ "" ->
  pg_loaded app = true ->
  Re.search false INSPECT_REGEX text = Some gs ->
  Re.group "1" gs = Some id ->
  users_table w !! id = Some row ->
  exists r : Response,
    events (inspect app) w = [PgSelectUser id; SlackQuery CHAT_POST_MESSAGE r]
    /\ r !! "text"
       = Some (profile_text (Some id)
                 (VDict (dict_set "join_date" (VFormat [PIsoformat (join_date row)])
                           (user_raw row)))).
Proof.
  intros Hchannel Htext Hfull Hpg Hsome Hid Hrow.
  destruct (inspect_known_user app w text Hchannel Htext Hfull gs id row
              Hpg Hsome Hid Hrow) as (r & Hrun & Hr).
  exists r. unfold events, after. unfold run in Hrun. rewrite Hrun. cbn.
  by rewrite drop_app_length.
Qed.

Lemma inspect_prefers_database_witness :
  exists r : Response,
    events (inspect Sample.app)
      (Fixture.world_knowing_user (Fixture.admin_msg "inspect <@U2>"))
    = [PgSelectUser "U2"; SlackQuery CHAT_POST_MESSAGE r]
    /\ r !! "text"
       = Some (profile_text (Some "U2")
                 (VDict (dict_set "join_date" (VFormat [PIsoformat 1500000000])
                           [("name", VStr "ada")]))).
Proof.
  apply (inspect_prefers_database Sample.app
           (Fixture.world_knowing_user (Fixture.admin_msg "inspect <@U2>"))
           "inspect <@U2>" [("1", "U2")] "U2"
           {| user_raw := [("name", VStr "ada")]; join_date := 1500000000 |}).
  - reflexivity.
  - reflexivity.
  - apply (bool_decide_unpack _). vm_compute. exact I.
  - reflexivity.
  - reflexivity.
  - reflexivity.
  - reflexivity.
Defined.

(** X16. When the mentioned user is not on record, [inspect] asks the chat
    API for the profile, once and after the lookup; when the API answers
    with a user, the profile posted is that answer. *)
Theorem inspect_falls_back_to_api (app : App) (w : World) (text : string)
    (gs : Re.captures) (id : string) :
  message w !! "channel" = Some (ADMIN_CHANNEL app) ->
  message w !! "text" = Some text -> text ≠ "" ->
  pg_loaded app = true ->
  Re.search false INSPECT_REGEX text = Some gs ->
  Re.group "1" gs = Some id ->
  users_table w !! id = None ->
  exists rest,
    events (inspect app) w
    = PgSelectUser id :: SlackQuery USERS_INFO {["user" := VStr id]} :: rest
    /\ (forall reply user,
          slack_api app USERS_INFO {["user" := VStr id]} = inr reply ->
          value_getitem reply "user" = inr user ->
          exists r, rest = [SlackQuery CHAT_POST_MESSAGE r]
            /\ r !! "text" = Some (profile_text (Some id) user)).
Proof.
  intros Hchannel Htext Hfull Hpg Hsome Hid Hrow.
  exact (inspect_unknown_user app w text Hchannel Htext Hfull gs id
           Hpg Hsome Hid Hrow).
Qed.

Lemma inspect_falls_back_to_api_witness :
  exists rest,
    events (inspect Sample.app) (Sample.world (Fixture.admin_msg "inspect <@U2>"))
    = PgSelectUser "U2" :: SlackQuery USERS_INFO {["user" := VStr "U2"]} :: rest.
Proof.
  destruct (inspect_falls_back_to_api Sample.app
              (Sample.world (Fixture.admin_msg "inspect <@U2>"))
              "inspect <@U2>" [("1", "U2")] "U2") as (rest & Hevents & _).
  - reflexivity.
  - reflexivity.
  - apply (bool_decide_unpack _). vm_compute. exact I.
  - reflexivity.
  - reflexivity.
  - reflexivity.
  - reflexivity.
  - exists rest. exact Hevents.
Defined.

(** X17. In the admin channel, a text in which no mention is found is
    answered with an apology, without a lookup in the database: the one
    call is the post. *)
Theorem inspect_without_mention (app : App) (w : World) (text : string) :
  message w !! "channel" = Some (ADMIN_CHANNEL app) ->
  message w !! "text" = Some text -> text ≠ "" ->
  Re.search false INSPECT_REGEX text = None ->
  exists r : Response,
    events (inspect app) w = [SlackQuery CHAT_POST_MESSAGE r]
    /\ r !! "text" = Some (VStr "Sorry I couldn't figure out which user to inspect").
Proof.
  intros Hchannel Htext Hfull Hnone.
  destruct (inspect_no_mention app w text Hchannel Htext Hfull Hnone)
    as (r & Hrun & Hr).
  exists r. unfold events, after. unfold run in Hrun. rewrite Hrun. cbn.
  by rewrite drop_app_length.
Qed.

Lemma inspect_without_mention_witness :
  exists r : Response,
    events (inspect Sample.app) (Sample.world (Fixture.admin_msg "inspect someone"))
    = [SlackQuery CHAT_POST_MESSAGE r]
    /\ r !! "text" = Some (VStr "Sorry I couldn't figure out which user to inspect").
Proof.
  apply (inspect_without_mention Sample.app
           (Sample.world (Fixture.admin_msg "inspect someone")) "inspect someone").
  - reflexivity.
  - reflexivity.
  - apply (bool_decide_unpack _). vm_compute. exact I.
  - reflexivity.
Defined.

(** X18. For a message with a channel, [help_message] posts exactly one
    message, to the channel and the thread of the incoming message: the
    help title, with one attachment that lists the help fields. *)
Theorem help_message_answers (app : App) (w : World) (channel : string) :
  message w !! "channel" = Some channel ->
  exists r : Response,
    run (help_message app) w
      = (logging [SlackQuery CHAT_POST_MESSAGE r] w,
         discard (slack_api app CHAT_POST_MESSAGE r))
    /\ r !! "text" = Some (VStr "Sir Bot-a-lot help")
    /\ r !! "attachments"
       = Some (VList [VDict [("color", VStr "good");
                             ("fields", HELP_FIELD_DESCRIPTIONS app)]])
    /\ r !! "channel" = Some (VStr channel)
    /\ r !! "thread_ts" = VStr <$> message w !! "thread_ts".
Proof.
  intros Hchannel. unfold help_message. run_handler. unfold logging.
  repeat (cbn; rewrite ?Hchannel).
  exists_query. split; [by destruct (slack_api app _ _) |].
  destruct (message w !! "thread_ts"); by simplify_map_eq.
Qed.

Lemma help_message_answers_witness :
  exists r : Response,
    run (help_message Sample.app) (Sample.world (Sample.msg "U1" "help"))
      = (logging [SlackQuery CHAT_POST_MESSAGE r] (Sample.world (Sample.msg "U1" "help")),
         discard (slack_api Sample.app CHAT_POST_MESSAGE r))
    /\ r !! "text" = Some (VStr "Sir Bot-a-lot help")
    /\ r !! "attachments"
       = Some (VList [VDict [("color", VStr "good"); ("fields", VList [])]])
    /\ r !! "channel" = Some (VStr "C1")
    /\ r !! "thread_ts" = None.
Proof.
  apply (help_message_answers Sample.app (Sample.world (Sample.msg "U1" "help")) "C1").
  reflexivity.
Defined.

(** *** Further properties: [github_repo_link] *)

Lemma posted_app (evs1 evs2 : list event) :
  posted (evs1 ++ evs2) = posted evs1 ++ posted evs2.
Proof.
  induction evs1 as [|ev evs1 IH]; [done |].
  destruct ev as [| [] | | | | | | |]; cbn; by rewrite ?IH.
Qed.

Lemma requested_app (evs1 evs2 : list event) :
  requested (evs1 ++ evs2) = requested evs1 ++ requested evs2.
Proof.
  induction evs1 as [|ev evs1 IH]; [done |].
  destruct ev; cbn; by rewrite ?IH.
Qed.

(** The repository asked for always has an owner. *)
Lemma owner_added (repo : string) :
  Py.contains (if Py.contains repo "/" then repo else "pyslackers/" +:+ repo) "/"
  = true.
Proof. destruct (Py.contains repo "/") eqn:Hslash; [exact Hslash | reflexivity]. Qed.

(** What the loop of [github_repo_link] adds to the trace. *)
Lemma github_repo_loop_trace (app : App) (n : nat) (response0 : Response) (w : World) :
  exists evs,
    trace (github_repo_loop app n response0 w).1 = trace w ++ evs
    /\ (fun r => r !! "text") <$> posted evs
       = (fun url => Some (VStr url)) <$> List.filter (found_200 app) (requested evs)
    /\ (length (requested evs) <= n)%nat
    /\ Forall repository_url (requested evs)
    /\ Forall request_or_post evs.
Proof.
  revert response0 w. induction n as [|n IH]; intros response0 w.
  { exists []. cbn. rewrite app_nil_r. repeat split; [lia | constructor..]. }
  cbn [github_repo_loop]. unfold bind at 1, message_getitem.
  destruct (message w !! "text") as [text |]; cbn;
    [| exists []; cbn; rewrite app_nil_r; repeat split; [lia | constructor..]].
  destruct (Py.split _) as [|repo pieces]; cbn;
    [exists []; cbn; rewrite app_nil_r; repeat split; [lia | constructor..] |].
  unfold http_request, message_setitem, api_query, emit, of_result, bind, ret, raise.
  cbn.
  set (url := "https://github.com/" +:+ _).
  assert (Hurl : repository_url url).
  { eexists. split; [reflexivity | apply owner_added]. }
  destruct (http_status app url) as [e | status] eqn:Hstatus; cbn.
  { exists [HttpRequest "GET" url]. cbn. unfold found_200. rewrite Hstatus.
    repeat split; [lia | by constructor | by repeat constructor]. }
  destruct (status =? 200) eqn:H200; cbn.
  - destruct (slack_api app CHAT_POST_MESSAGE _) as [e | v]; cbn.
    { eexists [HttpRequest "GET" url; SlackQuery CHAT_POST_MESSAGE _].
      rewrite <- app_assoc. cbn. unfold found_200. rewrite Hstatus, H200. cbn.
      repeat split;
        [by simplify_map_eq | lia | by constructor | by repeat constructor]. }
    match goal with
    | |- context [github_repo_loop app n ?r ?w'] =>
        destruct (IH r w') as (evs & Htrace & Hposted & Hlen & Hurls & Hcalls)
    end.
    cbn in Htrace.
    eexists (HttpRequest "GET" url :: SlackQuery CHAT_POST_MESSAGE _ :: evs).
    rewrite Htrace, <- !app_assoc. cbn. unfold found_200 at 1.
    rewrite Hstatus, H200, Hposted. cbn.
    repeat split;
      [by simplify_map_eq | lia | by constructor | by repeat constructor].
  - match goal with
    | |- context [github_repo_loop app n ?r ?w'] =>
        destruct (IH r w') as (evs & Htrace & Hposted & Hlen & Hurls & Hcalls)
    end.
    cbn in Htrace.
    exists (HttpRequest "GET" url :: evs).
    rewrite Htrace, <- !app_assoc. cbn. unfold found_200 at 1.
    rewrite Hstatus, H200, Hposted.
    repeat split; [lia | by constructor | by repeat constructor].
Qed.

Lemma github_nothing (app : App) (n : nat) :
  (fun r : Response => r !! "text") <$> posted []
  = (fun url => Some (VStr url)) <$> List.filter (found_200 app) (requested [])
  /\ (length (requested []) <= n)%nat
  /\ Forall repository_url (requested [])
  /\ Forall request_or_post [].
Proof. cbn. repeat split; [lia | constructor | constructor]. Qed.

Lemma github_repo_link_trace (app : App) (w : World) :
  exists evs,
    events (github_repo_link app) w = evs
    /\ (fun r => r !! "text") <$> posted evs
       = (fun url => Some (VStr url)) <$> List.filter (found_200 app) (requested evs)
    /\ (length (requested evs)
        <= Py.count (default "" (message w !! "text")) "g#")%nat
    /\ Forall repository_url (requested evs)
    /\ Forall request_or_post evs.
Proof.
  unfold events, after, github_repo_link. unfold bind at 1, message_get.
  destruct (message w !! "text") as [text |] eqn:Htext; cbn [default];
    [| exists []; split; [cbn; by rewrite drop_all | apply github_nothing]].
  case_bool_decide;
    [| exists []; split; [cbn; by rewrite drop_all | apply github_nothing]].
  unfold bind, message_response, bind, message_getitem, message_get, ret.
  destruct (message w !! "channel"); cbn [fst snd];
    [| exists []; split; [cbn; by rewrite drop_all | apply github_nothing]].
  match goal with
  | |- context [github_repo_loop app ?n ?r w] =>
      destruct (github_repo_loop_trace app n r w)
        as (evs & Htrace & Hposted & Hlen & Hurls & Hcalls)
  end.
  exists evs. rewrite Htrace, drop_app_length. by repeat split.
Qed.

(** X19. Whatever the message is, the links [github_repo_link] posts are
    exactly the URLs it requested and that were answered with status 200,
    in the order of the requests: a repository that is not found is never
    linked, and each one found is. *)
Theorem github_repo_link_posts_found_links (app : App) (w : World) :
  (fun r => r !! "text") <$> posted (events (github_repo_link app) w)
  = (fun url => Some (VStr url))
      <$> List.filter (found_200 app) (requested (events (github_repo_link app) w)).
Proof.
  destruct (github_repo_link_trace app w) as (evs & -> & Hposted & _). exact Hposted.
Qed.

(** X20. Whatever the message is, [github_repo_link] makes at most one
    HTTP request for each occurrence of [g#] in the text it received, each
    a GET of a URL of GitHub whose path names an owner and a repository;
    apart from these requests and the posts it calls no collaborator and
    logs nothing. *)
Theorem github_repo_link_requests (app : App) (w : World) :
  (length (requested (events (github_repo_link app) w))
   <= Py.count (default "" (message w !! "text")) "g#")%nat
  /\ Forall repository_url (requested (events (github_repo_link app) w))
  /\ Forall request_or_post (events (github_repo_link app) w).
Proof.
  destruct (github_repo_link_trace app w) as (evs & -> & _ & Hlen & Hurls & Hcalls).
  by repeat split.
Qed.

Lemma chars_app (s1 s2 : string) : Py.chars (s1 +:+ s2) = Py.chars s1 ++ Py.chars s2.
Proof.
  unfold Py.chars. induction s1 as [|a s1 IH]; [done |].
  unfold String.app. cbn. f_equal. exact IH.
Qed.

Lemma count_without (p s : list ascii) (i : Z) (skip : nat) :
  0 <= i -> Py.find_from p s i < 0 -> Py.count_go p s skip = 0%nat.
Proof.
  revert i skip. induction s as [|c s IH]; intros i skip Hi; [done |].
  cbn [Py.find_from Py.count_go].
  destruct (Py.starts_with p (c :: s)); [lia |]. intros Hnone.
  destruct skip; apply (IH (i + 1)); lia || done.
Qed.

(** X21. A message with a channel whose text holds no [g#] is none of the
    business of [github_repo_link]: it returns without a request, a post or
    a change to the message. *)
Theorem github_repo_link_without_reference (app : App) (w : World) (channel : string) :
  message w !! "channel" = Some channel ->
  Py.contains (default "" (message w !! "text")) "g#" = false ->
  run (github_repo_link app) w = (w, inr tt).
Proof.
  intros Hchannel Hnone. unfold github_repo_link. run_handler.
  destruct (message w !! "text") as [text |]; [| done]. cbn [default] in Hnone.
  case_bool_decide; [| done]. cbn. rewrite Hchannel. cbn.
  unfold Py.contains, Py.find in Hnone. apply Z.leb_gt in Hnone.
  unfold Py.count. by rewrite (count_without _ _ 0 0%nat) by (lia || done).
Qed.

Lemma github_repo_link_without_reference_witness :
  run (github_repo_link Sample.app) (Sample.world (Sample.msg "U1" "good morning"))
  = (Sample.world (Sample.msg "U1" "good morning"), inr tt).
Proof.
  apply (github_repo_link_without_reference Sample.app
           (Sample.world (Sample.msg "U1" "good morning")) "C1").
  - reflexivity.
  - reflexivity.
Defined.

Lemma split_blanks (cs : list ascii) :
  Forall (fun c => Py.is_space c = true) cs -> Py.split_go [] cs = [].
Proof. induction 1 as [|c cs Hc _ IH]; cbn; [done | by rewrite Hc]. Qed.

Lemma count_reference (blanks : string) :
  exists n, Py.count ("g#" +:+ blanks) "g#" = S n.
Proof. unfold Py.count. rewrite chars_app. cbn. eauto. Qed.

Lemma find_reference (blanks : string) : Py.find ("g#" +:+ blanks) "g#" = 0.
Proof. unfold Py.find. rewrite chars_app. reflexivity. Qed.

Lemma slice_reference (blanks : string) :
  Py.slice_from ("g#" +:+ blanks) 2 = Py.str (Py.chars blanks).
Proof. unfold Py.slice_from. rewrite chars_app. reflexivity. Qed.

(** X22. A reference that names no repository breaks the handler: when the
    text of the message is [g#] followed by nothing but blanks, the
    subscript of line 341 raises [IndexError], before any request is made
    and before the message is touched. *)
Theorem github_repo_link_empty_reference (app : App) (w : World)
    (channel blanks : string) :
  message w !! "channel" = Some channel ->
  message w !! "text" = Some ("g#" +:+ blanks) ->
  Forall (fun c => Py.is_space c = true) (Py.chars blanks) ->
  run (github_repo_link app) w = (w, inl IndexError).
Proof.
  intros Hchannel Htext Hblanks.
  destruct (count_reference blanks) as [n Hcount].
  unfold github_repo_link. run_handler.
  rewrite Htext, bool_decide_true, Hchannel, Hcount by done.
  cbn [github_repo_loop]. run_handler.
  rewrite Htext, find_reference. change (0 + 2) with 2. rewrite slice_reference.
  unfold Py.split. by rewrite str_chars, split_blanks.
Qed.

Lemma github_repo_link_empty_reference_witness :
  run (github_repo_link Sample.app) (Sample.world (Sample.msg "U1" "g#  "))
  = (Sample.world (Sample.msg "U1" "g#  "), inl IndexError).
Proof.
  apply (github_repo_link_empty_reference Sample.app
           (Sample.world (Sample.msg "U1" "g#  ")) "C1" "  ").
  - reflexivity.
  - reflexivity.
  - repeat constructor.
Defined.

(** *** Further properties: the quote handlers *)

Section StockAnswer.

Context (app : App) (w : World) (text channel S : string) (gs : Re.captures).
Context (q : Quote) (logo_url : string).
Hypothesis Htext : message w !! "text" = Some text.
Hypothesis Hsearch : Re.search false STOCK_REGEX text = Some gs.
Hypothesis Hgroup : Re.group "symbol" gs = Some S.
Hypothesis Hchannel : message w !! "channel" = Some channel.
Hypothesis Hbook : stocks_book app S = inr q.
Hypothesis Hlogo : stocks_logo app S = inr logo_url.

(** The run of [stock_quote] when the quote client answers both calls. *)
Lemma stock_quote_answered :
  match stock_attachment (Some S) q logo_url with
  | inr a =>
      exists r : Response,
        run (stock_quote app) w
        = (logging [Log DEBUG "Fetching stock quotes for symbol %s";
                    StocksBook S; StocksLogo S;
                    Log DEBUG "Quote from IEX API: %s";
                    SlackQuery CHAT_POST_MESSAGE r] w,
           discard (slack_api app CHAT_POST_MESSAGE r))
        /\ r !! "attachments" = Some (VList [a])
        /\ r !! "text" = None
        /\ r !! "channel" = Some (VStr channel)
  | inl e =>
      run (stock_quote app) w
      = (logging [Log DEBUG "Fetching stock quotes for symbol %s";
                  StocksBook S; StocksLogo S;
                  Log DEBUG "Quote from IEX API: %s"] w, inl e)
  end.
Proof.
  destruct (stock_attachment (Some S) q logo_url) as [e | a] eqn:Hbuild.
  all: unfold stock_quote; run_handler; unfold logging.
  all: repeat (cbn; rewrite ?Htext, ?Hsearch, ?Hgroup, ?Hchannel, ?Hbook, ?Hlogo,
                 ?Hbuild).
  - by rewrite <- !app_assoc.
  - exists_query. rewrite <- !app_assoc. split; [by destruct (slack_api app _ _) |].
    destruct (message w !! "thread_ts"); by simplify_map_eq.
Qed.

End StockAnswer.

(** X23. When the quote client answers both the book and the logo for the
    extracted symbol, and the quote has a company name and a latest price,
    [stock_quote] asks for the book, then for the logo, then posts exactly
    one response, to the channel of the message: it carries the attachment
    built from the quote and the logo, and no text. *)
Theorem stock_quote_posts_quote (app : App) (w : World) (text channel S : string)
    (gs : Re.captures) (q : Quote) (logo_url : string) (a : value) :
  message w !! "text" = Some text ->
  Re.search false STOCK_REGEX text = Some gs ->
  Re.group "symbol" gs = Some S ->
  message w !! "channel" = Some channel ->
  stocks_book app S = inr q ->
  stocks_logo app S = inr logo_url ->
  stock_attachment (Some S) q logo_url = inr a ->
  exists r : Response,
    calls (events (stock_quote app) w)
    = [StocksBook S; StocksLogo S; SlackQuery CHAT_POST_MESSAGE r]
    /\ r !! "attachments" = Some (VList [a])
    /\ r !! "text" = None
    /\ r !! "channel" = Some (VStr channel)
    /\ dict_get "thumb_url" (match a with VDict d => d | _ => [] end)
       = Some (VStr logo_url)
    /\ dict_get "color" (match a with VDict d => d | _ => [] end)
       = Some (VStr (color_of (default 0%Q (change q)))).
Proof.
  intros Htext Hsearch Hgroup Hchannel Hbook Hlogo Hbuild.
  pose proof (stock_quote_answered app w text channel S gs q logo_url
                Htext Hsearch Hgroup Hchannel Hbook Hlogo) as Hrun.
  rewrite Hbuild in Hrun. destruct Hrun as (r & Hrun & Hatt & Hnotext & Hto).
  exists r. unfold events, after. unfold run in Hrun. rewrite Hrun. cbn.
  rewrite drop_app_length. cbn. repeat split; try done.
  all: unfold stock_attachment in Hbuild.
  all: destruct (companyName q), (latestPrice q); try discriminate.
  all: by injection Hbuild as <-.
Qed.

Lemma stock_quote_posts_quote_witness :
  exists r : Response,
    calls (events (stock_quote (Fixture.quoting_app Fixture.apple))
             (Sample.world (Sample.msg "U1" "s$AAPL")))
    = [StocksBook "AAPL"; StocksLogo "AAPL"; SlackQuery CHAT_POST_MESSAGE r]
    /\ r !! "text" = None
    /\ r !! "channel" = Some (VStr "C1").
Proof.
  destruct (stock_attachment (Some "AAPL") Fixture.apple "https://logo.example/aapl.png")
    as [e | a] eqn:Hbuild; [discriminate |].
  destruct (stock_quote_posts_quote (Fixture.quoting_app Fixture.apple)
              (Sample.world (Sample.msg "U1" "s$AAPL")) "s$AAPL" "C1" "AAPL"
              [("symbol", "AAPL")] Fixture.apple "https://logo.example/aapl.png" a)
    as (r & Hcalls & _ & Hnotext & Hto & _).
  - reflexivity.
  - reflexivity.
  - reflexivity.
  - reflexivity.
  - reflexivity.
  - reflexivity.
  - exact Hbuild.
  - exists r. by repeat split.
Defined.

(** The quote of the sample lost two points: its attachment is coloured
    as a loss. *)
Example stock_quote_colours_loss :
  match stock_attachment (Some "AAPL") Fixture.apple "logo" with
  | inr (VDict d) => dict_get "color" d
  | _ => None
  end = Some (VStr "danger").
Proof. reflexivity. Qed.

(** X24. The clauses of [stock_quote] cover the calls of the quote client
    only. When both calls answer but the quote has no company name or no
    latest price (a null entry is removed on line 140 and subscripted on
    line 153), the handler raises [KeyError] and posts nothing. *)
Theorem stock_quote_incomplete_quote (app : App) (w : World)
    (text channel S : string) (gs : Re.captures) (q : Quote) (logo_url : string) :
  message w !! "text" = Some text ->
  Re.search false STOCK_REGEX text = Some gs ->
  Re.group "symbol" gs = Some S ->
  message w !! "channel" = Some channel ->
  stocks_book app S = inr q ->
  stocks_logo app S = inr logo_url ->
  companyName q = None \/ latestPrice q = None ->
  (exists key, raises (stock_quote app) w (KeyError key))
  /\ posted (events (stock_quote app) w) = [].
Proof.
  intros Htext Hsearch Hgroup Hchannel Hbook Hlogo Hnull.
  pose proof (stock_quote_answered app w text channel S gs q logo_url
                Htext Hsearch Hgroup Hchannel Hbook Hlogo) as Hrun.
  assert (Hbuild : exists key,
             stock_attachment (Some S) q logo_url = inl (KeyError key)).
  { unfold stock_attachment.
    destruct (companyName q), (latestPrice q), Hnull; try discriminate; eauto. }
  destruct Hbuild as [key Hbuild]. rewrite Hbuild in Hrun.
  unfold raises, outcome, events, after. unfold run in Hrun. rewrite Hrun. cbn.
  rewrite drop_app_length. eauto.
Qed.

Lemma stock_quote_incomplete_quote_witness :
  (exists key,
      raises (stock_quote (Fixture.quoting_app Fixture.nameless))
        (Sample.world (Sample.msg "U1" "s$AAPL")) (KeyError key))
  /\ posted (events (stock_quote (Fixture.quoting_app Fixture.nameless))
               (Sample.world (Sample.msg "U1" "s$AAPL"))) = [].
Proof.
  apply (stock_quote_incomplete_quote (Fixture.quoting_app Fixture.nameless)
           (Sample.world (Sample.msg "U1" "s$AAPL")) "s$AAPL" "C1" "AAPL"
           [("symbol", "AAPL")] Fixture.nameless "https://logo.example/aapl.png").
  - reflexivity.
  - reflexivity.
  - reflexivity.
  - reflexivity.
  - reflexivity.
  - reflexivity.
  - left. reflexivity.
Defined.

Ltac tickers :=
  repeat (apply List.Forall_cons;
          [first [by left | by right; left | by right; right] |]);
  apply List.Forall_nil.

(** X25. Whatever the message and the answers of the collaborators are,
    [stock_quote] asks the quote client about ticker symbols only: every
    call for a book or a logo carries a symbol of one to five characters,
    each an upper-case letter or a dot. *)
Theorem stock_quote_asks_for_tickers (app : App) (w : World) :
  Forall quotes_ticker (events (stock_quote app) w).
Proof.
  unfold stock_quote. run_handler.
  destruct (Re.search false STOCK_REGEX (default "" (message w !! "text")))
    as [gs |] eqn:Hsearch; [| cbn; rewrite drop_all; constructor].
  destruct (stock_regex_symbol _ _ Hsearch) as (S & Hgroup & Hticker).
  rewrite Hgroup. cbn.
  assert (Hall : forall evs,
             Forall (fun ev => ev = StocksBook S \/ ev = StocksLogo S
                               \/ quotes_ticker ev = True) evs ->
             Forall quotes_ticker evs).
  { intros evs Hevs. eapply Forall_impl; [exact Hevs |].
    intros ev [-> | [-> | Htrue]]; [exact Hticker | exact Hticker |].
    rewrite Htrue. exact I. }
  destruct (message w !! "channel"); cbn;
    [| trace_tail; apply Hall; tickers].
  destruct (stocks_book app S) as [s1 | q]; cbn.
  - destruct (s1 =? 404); cbn.
    all: destruct (slack_api app _ _); cbn.
    all: trace_tail; apply Hall; tickers.
  - destruct (stocks_logo app S) as [s2 | url]; cbn.
    + destruct (s2 =? 404); cbn.
      all: destruct (slack_api app _ _); cbn.
      all: trace_tail; apply Hall; tickers.
    + destruct (stock_attachment _ _ _); cbn;
        [trace_tail; apply Hall; tickers |].
      destruct (slack_api app _ _); cbn.
      all: trace_tail; apply Hall; tickers.
Qed.

(** *** Further properties: what the handlers keep of the database *)

Section Maintains.

Context {S : Type} (P : S -> Prop).

Lemma maintains_ret {A} (a : A) : maintains P (ret a).
Proof. by intros s. Qed.

Lemma maintains_raise {A} (e : exn) : maintains P (@raise S A e).
Proof. by intros s. Qed.

Lemma maintains_bind {A B} (c : M S A) (f : A -> M S B) :
  maintains P c -> (forall a, maintains P (f a)) -> maintains P (bind c f).
Proof.
  intros Hc Hf s Hs. unfold bind. specialize (Hc s Hs).
  destruct (c s) as [s' [e | a]]; cbn in *; [done |]. by apply Hf.
Qed.

Lemma maintains_try_except {A} (c : M S A) (handler : exn -> option (M S A)) :
  maintains P c ->
  (forall e, match handler e with Some h => maintains P h | None => True end) ->
  maintains P (try_except c handler).
Proof.
  intros Hc Hh s Hs. unfold try_except. specialize (Hc s Hs).
  destruct (c s) as [s' [e | a]]; cbn in *; [| done].
  specialize (Hh e). destruct (handler e) as [h |]; [| done]. by apply Hh.
Qed.

Lemma maintains_try_except_else {A B} (c : M S A)
    (handler : exn -> option (M S B)) (orelse : A -> M S B) :
  maintains P c ->
  (forall e, match handler e with Some h => maintains P h | None => True end) ->
  (forall a, maintains P (orelse a)) ->
  maintains P (try_except_else c handler orelse).
Proof.
  intros Hc Hh Helse s Hs. unfold try_except_else. specialize (Hc s Hs).
  destruct (c s) as [s' [e | a]]; cbn in *.
  - specialize (Hh e). destruct (handler e) as [h |]; [| done]. by apply Hh.
  - by apply Helse.
Qed.

Lemma maintains_of_result {A} (r : exn + A) : maintains P (of_result r).
Proof. destruct r; by intros s. Qed.

Lemma maintains_load {A} (name : string) (v : local A) : maintains P (load name v).
Proof. destruct v; by intros s. Qed.

End Maintains.

Section MaintainsDatabase.

(** A property of the world that the message and the trace do not bear on. *)
Context (P : World -> Prop).
Hypothesis Hstable : forall w m evs, P w -> P (retold m evs w).

Let P_l {L : Type} (s : World * L) : Prop := P s.1.

Lemma stable_same (w : World) (evs : list event) (m : Message) :
  P w ->
  P {| message := m; messages_table := messages_table w;
       channels_table := channels_table w; users_table := users_table w;
       trace := evs |}.
Proof. apply Hstable. Qed.

Lemma maintains_emit (ev : event) : maintains P (emit ev).
Proof. intros w Hw. by apply stable_same. Qed.

Lemma maintains_LOG (lvl : level) (msg : string) : maintains P (LOG lvl msg).
Proof. apply maintains_emit. Qed.

Lemma maintains_message_getitem (key : string) : maintains P (message_getitem key).
Proof. intros w Hw. unfold message_getitem. by destruct (message w !! key). Qed.

Lemma maintains_message_get (key : string) : maintains P (message_get key).
Proof. by intros w. Qed.

Lemma maintains_message_dict : maintains P message_dict.
Proof. by intros w. Qed.

Lemma maintains_message_setitem (key v : string) :
  maintains P (message_setitem key v).
Proof. intros w Hw. by apply stable_same. Qed.

Lemma maintains_message_response : maintains P message_response.
Proof.
  apply maintains_bind; [apply maintains_message_getitem | intros channel].
  apply maintains_bind; [apply maintains_message_get | intros thread].
  apply maintains_ret.
Qed.

Lemma maintains_of_http {A} (r : Z + A) : maintains P (of_http r).
Proof. destruct r; by intros s. Qed.

Lemma maintains_api_query (app : App) (url : methods) (data : Response) :
  maintains P (api_query app url data).
Proof.
  apply maintains_bind; [apply maintains_emit | intros _]. apply maintains_of_result.
Qed.

Lemma maintains_crypto (app : App) : maintains P (crypto app).
Proof.
  apply maintains_bind; [apply maintains_emit | intros _]. apply maintains_of_http.
Qed.

Lemma maintains_book (app : App) (sym : string) : maintains P (book app sym).
Proof.
  apply maintains_bind; [apply maintains_emit | intros _]. apply maintains_of_http.
Qed.

Lemma maintains_logo (app : App) (sym : string) : maintains P (logo app sym).
Proof.
  apply maintains_bind; [apply maintains_emit | intros _]. apply maintains_of_http.
Qed.

Lemma maintains_http_request (app : App) (url : string) :
  maintains P (http_request app url).
Proof.
  apply maintains_bind; [apply maintains_emit | intros _]. apply maintains_of_result.
Qed.

Lemma maintains_pg_plugin (app : App) : maintains P (pg_plugin app).
Proof. unfold pg_plugin. destruct (pg_loaded app); by intros s. Qed.

Lemma maintains_pg_select_channel (id : string) : maintains P (pg_select_channel id).
Proof. apply maintains_bind; [apply maintains_emit | intros _]. by intros w. Qed.

Lemma maintains_pg_select_user (id : string) : maintains P (pg_select_user id).
Proof. apply maintains_bind; [apply maintains_emit | intros _]. by intros w. Qed.

Lemma maintains_lift {L A} (c : M World A) :
  maintains P c -> maintains (@P_l L) (lift c).
Proof.
  intros Hc [w l] Hw. unfold lift, P_l in *. cbn in *. specialize (Hc w Hw).
  by destruct (c w).
Qed.

Lemma maintains_locals {L} : maintains (@P_l L) locals.
Proof. by intros s. Qed.

Lemma maintains_set_locals {L} (l : L) : maintains (@P_l L) (set_locals l).
Proof. by intros s. Qed.

Lemma maintains_with_locals {L A} (init : L) (c : M (World * L) A) :
  maintains (@P_l L) c -> maintains P (with_locals init c).
Proof.
  intros Hc w Hw. unfold with_locals. specialize (Hc (w, init) Hw).
  by destruct (c (w, init)).
Qed.

(** One step of a proof that a handler maintains [P]. *)
Ltac maintain_step :=
  first
    [ apply maintains_ret | apply maintains_raise | apply maintains_of_result
    | apply maintains_load | apply maintains_emit | apply maintains_LOG
    | apply maintains_message_getitem | apply maintains_message_get
    | apply maintains_message_dict | apply maintains_message_response
    | apply maintains_message_setitem
    | apply maintains_of_http | apply maintains_api_query | apply maintains_crypto
    | apply maintains_book | apply maintains_logo | apply maintains_http_request
    | apply maintains_pg_plugin
    | apply maintains_pg_select_channel | apply maintains_pg_select_user
    | apply maintains_locals | apply maintains_set_locals
    | apply maintains_lift | apply maintains_with_locals
    | apply maintains_bind; [| intros ?]
    | apply maintains_try_except; [| intros []; cbn; try exact I]
    | apply maintains_try_except_else; [| intros []; cbn; try exact I | intros ?]
    | match goal with
      | |- maintains _ (match ?x with _ => _ end) => destruct x
      | |- maintains _ (if ?b then _ else _) => destruct b
      end ].

Ltac maintain := cbv zeta; repeat (maintain_step; cbv zeta).

Context (app : App).

Lemma maintains_crypto_quote : maintains P (crypto_quote app).
Proof.
  unfold crypto_quote, assign_quote, assign_response, load_quote. maintain.
Qed.

Lemma maintains_stock_quote : maintains P (stock_quote app).
Proof. unfold stock_quote. maintain. Qed.

Lemma maintains_hello : maintains P (hello app).
Proof. unfold hello. maintain. Qed.

Lemma maintains_help_message : maintains P (help_message app).
Proof. unfold help_message. maintain. Qed.

Lemma maintains_tell : maintains P (tell app).
Proof. unfold tell. maintain. Qed.

Lemma maintains_mention : maintains P (mention app).
Proof. unfold mention. maintain. Qed.

Lemma maintains_channel_topic : maintains P (channel_topic app).
Proof. unfold channel_topic. maintain. Qed.

Lemma maintains_inspect : maintains P (inspect app).
Proof. unfold inspect. maintain. Qed.

Lemma maintains_github_repo_loop (n : nat) (response0 : Response) :
  maintains P (github_repo_loop app n response0).
Proof.
  revert response0. induction n as [|n IH]; intros response0; cbn [github_repo_loop].
  - apply maintains_ret.
  - apply maintains_bind; [apply maintains_message_getitem | intros text].
    cbv zeta. destruct (Py.split _) as [|repo pieces]; [apply maintains_raise |].
    apply maintains_bind; [apply maintains_message_setitem | intros _].
    apply maintains_bind; [apply maintains_http_request | intros status].
    apply maintains_bind; [| intros response1; apply IH].
    destruct (status =? 200); [| apply maintains_ret].
    apply maintains_bind; [apply maintains_api_query | intros _].
    apply maintains_ret.
Qed.

Lemma maintains_github_repo_link : maintains P (github_repo_link app).
Proof.
  unfold github_repo_link.
  apply maintains_bind; [apply maintains_message_get | intros text].
  destruct text as [t |]; [| apply maintains_ret].
  destruct (bool_decide (t ≠ "")); [| apply maintains_ret].
  apply maintains_bind; [apply maintains_message_response | intros r].
  apply maintains_github_repo_loop.
Qed.

(** The INSERT is the one write: [save_in_database] maintains [P] when adding
    a row under a new identifier does. *)
Lemma maintains_save_in_database :
  (forall w row,
      P w -> existsb (has_id (row_id row)) (messages_table w) = false ->
      P (inserting row w)) ->
  maintains P (save_in_database app).
Proof.
  intros Hinsert.
  assert (Hpg : forall row, maintains P (pg_insert_message row)).
  { intros row. apply maintains_bind; [apply maintains_emit | intros _].
    intros w Hw. destruct (existsb _ _) eqn:Hknown; [done |].
    by apply Hinsert. }
  unfold save_in_database. cbv zeta.
  repeat (first [apply Hpg | maintain_step]; cbv zeta).
Qed.

Lemma maintains_other_handlers (e : endpoint) :
  e ≠ SaveInDatabase -> maintains P (body e app).
Proof.
  intros He. destruct e; cbn [body]; try done.
  - apply maintains_hello.
  - apply maintains_tell.
  - apply maintains_mention.
  - apply maintains_channel_topic.
  - apply maintains_github_repo_link.
  - apply maintains_inspect.
  - apply maintains_help_message.
  - apply maintains_stock_quote.
  - apply maintains_crypto_quote.
Qed.

End MaintainsDatabase.

(** X26. No handler other than [save_in_database] writes to the database:
    whatever the message, the application and the answers of the
    collaborators are, it leaves the messages, channels and users tables as
    it found them. *)
Theorem handlers_leave_database (e : endpoint) (app : App) (w : World) :
  e ≠ SaveInDatabase -> tables (after (body e app) w) = tables w.
Proof.
  intros He.
  apply (maintains_other_handlers (fun w' => tables w' = tables w)); done.
Qed.

Lemma handlers_leave_database_witness :
  tables (after (body ChannelTopic Sample.app)
            (Sample.world_knowing_channel Sample.topic_change))
  = tables (Sample.world_knowing_channel Sample.topic_change).
Proof.
  apply (handlers_leave_database ChannelTopic Sample.app
           (Sample.world_knowing_channel Sample.topic_change)).
  discriminate.
Defined.

(** X27. [save_in_database] only ever adds to the messages table: the rows
    stored before a delivery are still there after it, in their order, and
    the channels and users tables are left as they were. *)
Theorem save_in_database_only_adds (app : App) (w : World) :
  messages_table w `prefix_of` messages_table (after (save_in_database app) w)
  /\ channels_table (after (save_in_database app) w) = channels_table w
  /\ users_table (after (save_in_database app) w) = users_table w.
Proof.
  split; [| split].
  - apply (maintains_save_in_database
             (fun w' => messages_table w `prefix_of` messages_table w')); try done.
    intros w' row Hprefix _. cbn. by apply prefix_app_r.
  - apply (maintains_save_in_database
             (fun w' => channels_table w' = channels_table w)); done.
  - apply (maintains_save_in_database
             (fun w' => users_table w' = users_table w)); done.
Qed.

Lemma fresh_identifier (id : string) (rows : list MessageRow) :
  existsb (has_id id) rows = false -> id ∉ map row_id rows.
Proof.
  induction rows as [|row rows IH]; cbn; [intros _; apply not_elem_of_nil |].
  intros [Hrow Hrows]%orb_false_iff. apply not_elem_of_cons. split; [| by apply IH].
  unfold has_id in Hrow. by apply bool_decide_eq_false in Hrow.
Qed.

(** X28. Every handler keeps the key of the messages table: when no two
    stored rows share an identifier before a handler runs, none do after
    it, whatever the message is and however the handler ends. *)
Theorem handlers_keep_key (e : endpoint) (app : App) (w : World) :
  key_holds w -> key_holds (after (body e app) w).
Proof.
  intros Hkey. destruct (decide (e = SaveInDatabase)) as [-> | He].
  - apply (maintains_save_in_database key_holds); try done.
    intros w' row Hkeys Hfresh. unfold key_holds, inserting in *. cbn.
    rewrite map_app. cbn. apply NoDup_app. split; [done |]. split.
    + intros id Hid Hin. apply list_elem_of_singleton in Hin as ->.
      by apply (fresh_identifier _ _ Hfresh).
    + apply NoDup_singleton.
  - by apply (maintains_other_handlers key_holds).
Qed.

Lemma handlers_keep_key_witness :
  key_holds (after (body SaveInDatabase Sample.app)
               (after (body SaveInDatabase Sample.app)
                  (Sample.world (Sample.msg "U1" "hello")))).
Proof.
  apply (handlers_keep_key SaveInDatabase Sample.app).
  apply (handlers_keep_key SaveInDatabase Sample.app).
  apply NoDup_nil_2.
Defined.

(** *** Further properties: where the handlers answer *)

(** The links of [github_repo_link] go where its draft goes. *)
Lemma github_repo_loop_in_place (app : App) (channel : string) (n : nat)
    (response0 : Response) (w : World) :
  sent_to channel response0 ->
  exists evs,
    trace (github_repo_loop app n response0 w).1 = trace w ++ evs
    /\ Forall (sent_to channel) (posted evs).
Proof.
  revert response0 w. induction n as [|n IH]; intros response0 w Hto.
  { exists []. cbn. rewrite app_nil_r. split; [done | constructor]. }
  cbn [github_repo_loop]. unfold bind at 1, message_getitem.
  destruct (message w !! "text") as [text |]; cbn;
    [| exists []; cbn; rewrite app_nil_r; split; [done | constructor]].
  destruct (Py.split _) as [|repo pieces]; cbn;
    [exists []; cbn; rewrite app_nil_r; split; [done | constructor] |].
  unfold http_request, message_setitem, api_query, emit, of_result, bind, ret, raise.
  cbn.
  set (url := "https://github.com/" +:+ _).
  assert (Hlink : sent_to channel (<["text" := VStr url]> response0)).
  { unfold sent_to in *. by simplify_map_eq. }
  destruct (http_status app url) as [e | status]; cbn.
  { exists [HttpRequest "GET" url]. cbn. split; [done | constructor]. }
  destruct (status =? 200); cbn.
  - destruct (slack_api app CHAT_POST_MESSAGE _) as [e | v]; cbn.
    { eexists [HttpRequest "GET" url; SlackQuery CHAT_POST_MESSAGE _].
      rewrite <- app_assoc. cbn. split; [done | by repeat constructor]. }
    match goal with
    | |- context [github_repo_loop app n ?r ?w'] =>
        destruct (IH r w' Hlink) as (evs & Htrace & Hposted)
    end.
    cbn in Htrace.
    eexists (HttpRequest "GET" url :: SlackQuery CHAT_POST_MESSAGE _ :: evs).
    rewrite Htrace, <- !app_assoc. cbn. split; [done | by constructor].
  - match goal with
    | |- context [github_repo_loop app n ?r ?w'] =>
        destruct (IH r w' Hto) as (evs & Htrace & Hposted)
    end.
    cbn in Htrace.
    exists (HttpRequest "GET" url :: evs).
    rewrite Htrace, <- !app_assoc. cbn. by split.
Qed.

Section InPlace.

Context (app : App) (w : World) (channel : string).
Hypothesis Hchannel : message w !! "channel" = Some channel.

(** Branch on whatever the run still depends on, then read the posts off
    the trace. *)
Ltac in_place :=
  run_handler;
  repeat first [ rewrite Hchannel | progress cbn | case_match; simplify_eq ];
  rewrite <- ?app_assoc, ?drop_app_length, ?drop_all; cbn;
  repeat (apply List.Forall_cons; [unfold sent_to; by simplify_map_eq |]);
  apply List.Forall_nil.

Lemma hello_in_place : Forall (sent_to channel) (posted (events (hello app) w)).
Proof. unfold hello. in_place. Qed.

Lemma help_message_in_place :
  Forall (sent_to channel) (posted (events (help_message app) w)).
Proof. unfold help_message. in_place. Qed.

Lemma mention_in_place : Forall (sent_to channel) (posted (events (mention app) w)).
Proof. unfold mention. in_place. Qed.

Lemma stock_quote_in_place :
  Forall (sent_to channel) (posted (events (stock_quote app) w)).
Proof. unfold stock_quote. in_place. Qed.

Lemma crypto_quote_in_place :
  Forall (sent_to channel) (posted (events (crypto_quote app) w)).
Proof. unfold crypto_quote. in_place. Qed.

Lemma inspect_in_place : Forall (sent_to channel) (posted (events (inspect app) w)).
Proof. unfold inspect, pg_select_user, value_getitem. in_place. Qed.

Lemma save_in_database_in_place :
  Forall (sent_to channel) (posted (events (save_in_database app) w)).
Proof. unfold save_in_database, ts_seconds, fromtimestamp. in_place. Qed.

Lemma github_repo_link_in_place :
  Forall (sent_to channel) (posted (events (github_repo_link app) w)).
Proof.
  unfold events, after, github_repo_link. unfold bind at 1, message_get.
  destruct (message w !! "text") as [text |]; [| cbn; rewrite drop_all; constructor].
  case_bool_decide; [| cbn; rewrite drop_all; constructor].
  unfold bind, message_response, bind, message_getitem, message_get, ret.
  rewrite Hchannel. cbn [fst snd].
  match goal with
  | |- context [github_repo_loop app ?n ?r w] =>
      destruct (github_repo_loop_in_place app channel n r w) as (evs & -> & Hposted)
  end.
  - unfold sent_to. destruct (message w !! "thread_ts"); by simplify_map_eq.
  - by rewrite drop_app_length.
Qed.

End InPlace.

(** X29. Apart from [tell], which relays to the destination it is given,
    and [channel_topic], which reports to the admin channel, every handler
    answers where it was asked: each message it posts goes to the channel
    of the incoming message, whatever the collaborators answer. *)
Theorem handlers_answer_in_place (e : endpoint) (app : App) (w : World)
    (channel : string) :
  e ≠ Tell -> e ≠ ChannelTopic ->
  message w !! "channel" = Some channel ->
  Forall (sent_to channel) (posted (events (body e app) w)).
Proof.
  intros Htell Htopic Hchannel. destruct e; cbn [body]; try done.
  - by apply hello_in_place.
  - by apply mention_in_place.
  - by apply save_in_database_in_place.
  - by apply github_repo_link_in_place.
  - by apply inspect_in_place.
  - by apply help_message_in_place.
  - by apply stock_quote_in_place.
  - by apply crypto_quote_in_place.
Qed.

Lemma handlers_answer_in_place_witness :
  Forall (sent_to "C1")
    (posted (events (body GithubRepoLink (Fixture.quoting_app Fixture.apple))
               (Sample.world (Sample.msg "U1" "see g#sirbot ok")))).
Proof.
  apply (handlers_answer_in_place GithubRepoLink (Fixture.quoting_app Fixture.apple)
           (Sample.world (Sample.msg "U1" "see g#sirbot ok")) "C1").
  - discriminate.
  - discriminate.
  - reflexivity.
Defined.
